(** * nessusmerger: merging Nessus scan reports by host name

    A shallow embedding of [main.go] and the properties of its merge engine.

    - Go strings and [[]byte] are [string] (byte strings).
    - Go's [int] is a 64-bit two's complement integer: [Z] with the
      wrap-around written out ([int_wrap]).
    - [map[string]*ReportHost] is a [gmap string ReportHost].  Every pointer
      stored in the map points to a [hostCopy] of its own (main.go:197-198),
      so no two entries alias and an update through the pointer
      (main.go:203) is an update of that one entry.
    - The file system together with [xml.Unmarshal] is a function from file
      names to parse results; the iteration order of Go's [range] over a map
      is a function that lists the entries of the map in some order.
    - Console output ([fmt.Printf], the progress bar) does not influence the
      returned values and is left out. *)

From Stdlib Require Import ZArith Lia DecimalString Eqdep_dec.
From stdpp Require Import gmap strings list fin_maps.

(** ** Go's [int] *)

Definition int_wrap (z : Z) : Z := ((z + 2 ^ 63) mod 2 ^ 64 - 2 ^ 63)%Z.

Definition int_add (a b : Z) : Z := int_wrap (a + b).

Definition int_max : Z := (2 ^ 63 - 1)%Z.

(** [len(s)] of a slice. *)
Definition len {A : Type} (s : list A) : Z := Z.of_nat (length s).

(** ** Data model (main.go:14-59) *)

(** [xml.Name] *)
Record xml_Name := mk_xml_Name {
  Space : string;
  Local : string
}.

Record Policy := mk_Policy {
  Policy_XMLName : xml_Name;
  Policy_Content : string
}.

Record HostProperties := mk_HostProperties {
  HostProperties_XMLName : xml_Name;
  HostProperties_Content : string
}.

Record ReportItem := mk_ReportItem {
  ReportItem_XMLName : xml_Name;
  ReportItem_Content : string;
  ReportItem_Port : string;
  ReportItem_SvcName : string;
  ReportItem_Protocol : string;
  ReportItem_Severity : string;
  ReportItem_PluginID : string;
  ReportItem_PluginName : string;
  ReportItem_PluginFamily : string
}.

Record ReportHost := mk_ReportHost {
  ReportHost_XMLName : xml_Name;
  ReportHost_Name : string;
  ReportHost_HostProperties : HostProperties;
  ReportHost_ReportItems : list ReportItem
}.

Record Report := mk_Report {
  Report_XMLName : xml_Name;
  Report_Name : string;
  Report_ReportHosts : list ReportHost
}.

Record NessusClientData := mk_NessusClientData {
  NessusClientData_XMLName : xml_Name;
  NessusClientData_Policy : Policy;
  NessusClientData_Report : Report
}.

(** Zero values of the structs, as Go initialises them. *)
Definition zero_Name : xml_Name := mk_xml_Name EmptyString EmptyString.
Definition zero_Policy : Policy := mk_Policy zero_Name EmptyString.

(** A Go [error] is represented by its message. *)
Definition error := string.

(** ** The merge loop (main.go:151-222) *)

(** The local variables of [mergeNessusFiles] that the loop updates. *)
Record MergeState := mk_MergeState {
  basePolicy : Policy;
  hostMap : gmap string ReportHost;
  processedHosts : Z;
  uniqueHosts : Z;
  mergedHosts : Z;
  totalFindings : Z
}.

(** main.go:153-154, 175-178 *)
Definition initState : MergeState :=
  mk_MergeState zero_Policy ∅ 0 0 0 0.

(** [existingHost.ReportItems = append(existingHost.ReportItems, items...)] *)
Definition appendItems (existingHost : ReportHost) (items : list ReportItem)
  : ReportHost :=
  mk_ReportHost (ReportHost_XMLName existingHost)
                (ReportHost_Name existingHost)
                (ReportHost_HostProperties existingHost)
                (ReportHost_ReportItems existingHost ++ items).

(** The body of the inner loop, main.go:193-206. *)
Definition processHost (st : MergeState) (host : ReportHost) : MergeState :=
  let processed := int_add (processedHosts st) 1 in
  match hostMap st !! ReportHost_Name host with
  | None =>
      let hostCopy := host in
      mk_MergeState (basePolicy st)
                    (<[ReportHost_Name host := hostCopy]> (hostMap st))
                    processed
                    (int_add (uniqueHosts st) 1)
                    (mergedHosts st)
                    (int_add (totalFindings st) (len (ReportHost_ReportItems host)))
  | Some existingHost =>
      mk_MergeState (basePolicy st)
                    (<[ReportHost_Name host :=
                         appendItems existingHost (ReportHost_ReportItems host)]>
                       (hostMap st))
                    processed
                    (uniqueHosts st)
                    (int_add (mergedHosts st) 1)
                    (int_add (totalFindings st) (len (ReportHost_ReportItems host)))
  end.

(** [if i == 0 { basePolicy = data.Policy }], main.go:186-189. *)
Definition setPolicy (i : nat) (data : NessusClientData) (st : MergeState)
  : MergeState :=
  if decide (i = 0)
  then mk_MergeState (NessusClientData_Policy data) (hostMap st)
                     (processedHosts st) (uniqueHosts st) (mergedHosts st)
                     (totalFindings st)
  else st.

(** The error built by [fmt.Errorf] at main.go:144 and main.go:183. *)
Definition parseErrorf (file : string) (err : error) : error :=
  "error parsing " +:+ file +:+ ": " +:+ err.

Section Files.

(** [parseNessusFile] (main.go:251-270) reads the named file and hands its
    bytes to [xml.Unmarshal]; both are outside the program, so the function
    is given by its results. *)
Variable parseNessusFile : string → error + NessusClientData.

(** main.go:139-149 *)
Fixpoint countFrom (totalCount : Z) (files : list string) : error + Z :=
  match files with
  | [] => inr totalCount
  | file :: rest =>
      match parseNessusFile file with
      | inl err => inl (parseErrorf file err)
      | inr data =>
          countFrom
            (int_add totalCount
               (len (Report_ReportHosts (NessusClientData_Report data))))
            rest
      end
  end.

Definition countTotalHosts (files : list string) : error + Z :=
  countFrom 0 files.

(** The outer loop [for i, file := range files], main.go:180-213, from
    index [i] on. *)
Fixpoint mergeFrom (i : nat) (files : list string) (st : MergeState)
  : error + MergeState :=
  match files with
  | [] => inr st
  | file :: rest =>
      match parseNessusFile file with
      | inl err => inl (parseErrorf file err)
      | inr data =>
          let st := setPolicy i data st in
          let st :=
            foldl processHost st
                  (Report_ReportHosts (NessusClientData_Report data)) in
          mergeFrom (S i) rest st
      end
  end.

Definition mergeLoop (files : list string) : error + MergeState :=
  mergeFrom 0 files initState.

End Files.

(** ** The serializer (main.go:225-240)

    [xml.MarshalIndent] of the library [encoding/xml] (empty prefix, indent
    of two spaces),
    written out for the struct types of main.go:15-59.  The struct tags fix
    what is printed: the tag of the [XMLName] field names the element (no
    namespace), a field tagged [,attr] becomes an attribute whose value is
    escaped, a field tagged [,innerxml] is written as it is, and a slice is
    printed element by element. *)

Definition nl : string := String (Ascii.ascii_of_nat 10) EmptyString.
Definition dquote : string := String (Ascii.ascii_of_nat 34) EmptyString.

(** [xml.Header] *)
Definition xml_Header : string :=
  "<?xml version=" +:+ dquote +:+ "1.0" +:+ dquote +:+
  " encoding=" +:+ dquote +:+ "UTF-8" +:+ dquote +:+ "?>" +:+ nl.

(** The [printer] of [encoding/xml]: the bytes written so far and the
    indentation state ([prefix] is empty and [indent] is two spaces). *)
Record printer := mk_printer {
  buf : string;
  depth : Z;
  indentedIn : bool;
  putNewline : bool
}.

Definition newPrinter : printer := mk_printer EmptyString 0 false false.

Definition WriteString (s : string) (p : printer) : printer :=
  mk_printer (buf p +:+ s) (depth p) (indentedIn p) (putNewline p).

(** [for i := 0; i < p.depth; i++ { p.WriteString(p.indent) }] *)
Fixpoint indents (n : nat) : string :=
  match n with
  | O => EmptyString
  | S n => "  " +:+ indents n
  end.

Definition writeIndent (depthDelta : Z) (p : printer) : printer :=
  let d := if bool_decide (depthDelta < 0)%Z then (depth p - 1)%Z else depth p in
  if bool_decide (depthDelta < 0)%Z && indentedIn p then
    mk_printer (buf p) d false (putNewline p)
  else
    let ind := if bool_decide (depthDelta < 0)%Z then false else indentedIn p in
    let b := if putNewline p then buf p +:+ nl else buf p in
    let b := b +:+ indents (Z.to_nat d) in
    if bool_decide (0 < depthDelta)%Z
    then mk_printer b (d + 1)%Z true true
    else mk_printer b d ind true.

Definition writeEnd (name : string) (p : printer) : printer :=
  WriteString ("</" +:+ name +:+ ">") (writeIndent (-1) p).

Section Marshal.

(** [EscapeString] of the printer: the escaping of attribute values. *)
Variable EscapeString : string → string.

Definition writeAttr (p : printer) (attr : string * string) : printer :=
  WriteString (" " +:+ attr.1 +:+ "=" +:+ dquote +:+
               EscapeString attr.2 +:+ dquote) p.

Definition writeStart (name : string) (attrs : list (string * string))
    (p : printer) : printer :=
  let p := writeIndent 1 p in
  let p := WriteString ("<" +:+ name) p in
  let p := foldl writeAttr p attrs in
  WriteString ">" p.

Definition marshalPolicy (v : Policy) (p : printer) : printer :=
  let p := writeStart "Policy" [] p in
  let p := WriteString (Policy_Content v) p in
  writeEnd "Policy" p.

Definition marshalHostProperties (v : HostProperties) (p : printer)
  : printer :=
  let p := writeStart "HostProperties" [] p in
  let p := WriteString (HostProperties_Content v) p in
  writeEnd "HostProperties" p.

Definition marshalReportItem (p : printer) (v : ReportItem) : printer :=
  let p := writeStart "ReportItem"
             [("port", ReportItem_Port v);
              ("svc_name", ReportItem_SvcName v);
              ("protocol", ReportItem_Protocol v);
              ("severity", ReportItem_Severity v);
              ("pluginID", ReportItem_PluginID v);
              ("pluginName", ReportItem_PluginName v);
              ("pluginFamily", ReportItem_PluginFamily v)] p in
  let p := WriteString (ReportItem_Content v) p in
  writeEnd "ReportItem" p.

Definition marshalReportHost (p : printer) (v : ReportHost) : printer :=
  let p := writeStart "ReportHost" [("name", ReportHost_Name v)] p in
  let p := marshalHostProperties (ReportHost_HostProperties v) p in
  let p := foldl marshalReportItem p (ReportHost_ReportItems v) in
  writeEnd "ReportHost" p.

Definition marshalReport (v : Report) (p : printer) : printer :=
  let p := writeStart "Report" [("name", Report_Name v)] p in
  let p := foldl marshalReportHost p (Report_ReportHosts v) in
  writeEnd "Report" p.

Definition marshalNessusClientData (v : NessusClientData) (p : printer)
  : printer :=
  let p := writeStart "NessusClientData_v2" [] p in
  let p := marshalPolicy (NessusClientData_Policy v) p in
  let p := marshalReport (NessusClientData_Report v) p in
  writeEnd "NessusClientData_v2" p.

(** Encoding these struct types into a buffer has no failing step. *)
Definition xml_MarshalIndent (v : NessusClientData) : error + string :=
  inr (buf (marshalNessusClientData v newPrinter)).

(** ** [mergeNessusFiles] (main.go:152-248) *)

Variable parseNessusFile : string → error + NessusClientData.

(** [for _, host := range hostMap]: every entry once, in an order that the
    language leaves open. *)
Variable rangeMap : gmap string ReportHost → list (string * ReportHost).

(** main.go:219-222 *)
Definition collectHosts (st : MergeState) : list ReportHost :=
  foldl (λ allHosts kv, allHosts ++ [kv.2]) [] (rangeMap (hostMap st)).

(** main.go:225-231 *)
Definition buildMergedData (st : MergeState) : NessusClientData :=
  mk_NessusClientData zero_Name (basePolicy st)
    (mk_Report zero_Name "Merged Nessus Report" (collectHosts st)).

(** [totalHosts] only sizes the progress bar. *)
Definition mergeNessusFiles (files : list string) (totalHosts : Z)
  : error + string :=
  match mergeLoop parseNessusFile files with
  | inl err => inl err
  | inr st =>
      let mergedData := buildMergedData st in
      match xml_MarshalIndent mergedData with
      | inl err => inl ("error marshaling XML: " +:+ err)
      | inr output => inr (xml_Header +:+ output)
      end
  end.

End Marshal.

(** ** The main pipeline (main.go:83-110)

    From the list of discovered files to the call of [saveMergedReport]:
    either a message is printed and the process exits with status 1 ([inl]
    of the message), or the merged bytes are handed to [saveMergedReport]
    ([inr] of the bytes). *)

Section Main.

Variable EscapeString : string → string.
Variable parseNessusFile : string → error + NessusClientData.
Variable rangeMap : gmap string ReportHost → list (string * ReportHost).

Definition mergePipeline (inputDir : string) (nessusFiles : list string)
  : string + string :=
  if decide (len nessusFiles = 0%Z) then
    inl ("No .nessus files found in directory: " +:+ inputDir +:+ nl)
  else
    match countTotalHosts parseNessusFile nessusFiles with
    | inl err => inl ("Error counting hosts: " +:+ err +:+ nl)
    | inr totalHosts =>
        match mergeNessusFiles EscapeString parseNessusFile rangeMap
                nessusFiles totalHosts with
        | inl err => inl ("Error merging Nessus files: " +:+ err +:+ nl)
        | inr mergedData => inr mergedData
        end
    end.

End Main.

(** ** Vocabulary of the properties *)

(** The files parse, in order, to the documents [docs]. *)
Definition parsed (parseNessusFile : string → error + NessusClientData)
    (files : list string) (docs : list NessusClientData) : Prop :=
  Forall2 (λ file data, parseNessusFile file = inr data) files docs.

Definition docHosts (d : NessusClientData) : list ReportHost :=
  Report_ReportHosts (NessusClientData_Report d).

(** All host occurrences of a run, in processing order. *)
Definition hostsOf (docs : list NessusClientData) : list ReportHost :=
  docs ≫= docHosts.

(** The occurrences of host name [n]. *)
Definition named (n : string) (hs : list ReportHost) : list ReportHost :=
  filter (λ h, ReportHost_Name h = n) hs.

Definition itemsOf (hs : list ReportHost) : list ReportItem :=
  hs ≫= ReportHost_ReportItems.

(** Every finding together with the name of the host it is attached to. *)
Definition findingsOf (hs : list ReportHost) : list (string * ReportItem) :=
  hs ≫= (λ h, (λ it, (ReportHost_Name h, it)) <$> ReportHost_ReportItems h).

Definition hostNames (hs : list ReportHost) : list string :=
  ReportHost_Name <$> hs.

(** The number of distinct host names. *)
Definition distinctNames (hs : list ReportHost) : nat :=
  length (remove_dups (hostNames hs)).

(** The number of distinct host names that occur more than once. *)
Definition repeatedNames (hs : list ReportHost) : nat :=
  length (filter (λ n, 2 ≤ length (named n hs)) (remove_dups (hostNames hs))).

(** The number of findings of a list of hosts: the sum of the lengths of
    their finding lists. *)
Definition findingCount (hs : list ReportHost) : nat :=
  sum_list_with (λ h, length (ReportHost_ReportItems h)) hs.

(** The Policy of the first document, or Go's zero value if there is none. *)
Definition firstPolicy (docs : list NessusClientData) : Policy :=
  match docs with
  | [] => zero_Policy
  | d :: _ => NessusClientData_Policy d
  end.

(** What the accumulator holds for host name [n] after the occurrences [hs]:
    the first occurrence, with the findings of the later ones appended. *)
Definition mergedEntry (n : string) (hs : list ReportHost)
  : option ReportHost :=
  match named n hs with
  | [] => None
  | h0 :: later => Some (appendItems h0 (itemsOf later))
  end.

Definition withPolicy (p : Policy) (st : MergeState) : MergeState :=
  mk_MergeState p (hostMap st) (processedHosts st) (uniqueHosts st)
                (mergedHosts st) (totalFindings st).

(** [s] occurs in [t]. *)
Definition occursIn (s t : string) : Prop :=
  ∃ a b, t = a +:+ s +:+ b.

(** [t] starts with [s]. *)
Definition startsWith (s t : string) : Prop :=
  ∃ b, t = s +:+ b.

(** The printer [q] holds what [p] holds and possibly more: nothing that was
    written is taken back. *)
Definition extends (p q : printer) : Prop :=
  ∃ w, buf q = buf p +:+ w.

(** ** Example inputs

    The two reports of the specification's example, a third report that
    repeats a host once more, a report that lists one host name twice, and a
    directory in which one file is not a report. *)

Module Examples.

Definition finding (body : string) : ReportItem :=
  mk_ReportItem (mk_xml_Name EmptyString "ReportItem") body
                "443" "www" "tcp" "2" "10863" "SSL Certificate" "General".

Definition host (name props : string) (items : list ReportItem)
  : ReportHost :=
  mk_ReportHost (mk_xml_Name EmptyString "ReportHost") name
                (mk_HostProperties (mk_xml_Name EmptyString "HostProperties")
                                   props)
                items.

Definition document (policy : string) (hosts : list ReportHost)
  : NessusClientData :=
  mk_NessusClientData (mk_xml_Name EmptyString "NessusClientData_v2")
    (mk_Policy (mk_xml_Name EmptyString "Policy") policy)
    (mk_Report (mk_xml_Name EmptyString "Report") "scan" hosts).

Definition docA : NessusClientData :=
  document "<policyName>A</policyName>"
    [host "10.0.0.1" "<tag>a1</tag>" [finding "f1"; finding "f2"; finding "f3"];
     host "10.0.0.2" "<tag>a2</tag>" [finding "f4"]].

Definition docB : NessusClientData :=
  document "<policyName>B</policyName>"
    [host "10.0.0.1" "<tag>b1</tag>" [finding "f5"; finding "f6"]].

Definition docC : NessusClientData :=
  document "<policyName>C</policyName>"
    [host "10.0.0.1" "<tag>c1</tag>" [finding "f7"]].

Definition firstNine : ReportHost :=
  host "10.0.0.9" "<tag>d1</tag>" [finding "g1"].

Definition eight : ReportHost :=
  host "10.0.0.8" "<tag>d3</tag>" [finding "g4"].

Definition secondNine : ReportHost :=
  host "10.0.0.9" "<tag>d2</tag>" [finding "g2"; finding "g3"].

Definition docTwice : NessusClientData :=
  document "<policyName>D</policyName>" [firstNine; eight; secondNine].

Definition directory (file : string) : error + NessusClientData :=
  if decide (file = "a.nessus") then inr docA
  else if decide (file = "b.nessus") then inr docB
  else if decide (file = "c.nessus") then inr docC
  else if decide (file = "twice.nessus") then inr docTwice
  else if decide (file = "broken.nessus")
       then inl "XML syntax error on line 1: unexpected EOF"
  else inl ("open " +:+ file +:+ ": no such file or directory").

(** An iteration order of the map. *)
Definition keyOrder (m : gmap string ReportHost)
  : list (string * ReportHost) := map_to_list m.

(** An escaping that leaves letters, digits, dots and spaces alone. *)
Definition plainEscape (s : string) : string := s.

End Examples.

(** ** Finding the report files (main.go:119-136)

    [filepath.Walk] calls the function it is given once for every entry of
    the tree below [dir], in the order of the walk, with the path, the file
    info and the error it met at that entry, and it stops at the first call
    that returns an error.  The function of main.go:123-133 returns either
    [nil] or the error it was handed, so the walk enters as the sequence of
    calls that [filepath.Walk] makes when it is never stopped. *)

(** [os.FileInfo], as far as the function looks at it. *)
Record FileInfo := mk_FileInfo {
  FileInfo_Name : string;
  FileInfo_IsDir : bool
}.

(** One call by [filepath.Walk]: an entry with its info, or an entry that
    could not be examined, with the error. *)
Inductive visit :=
| Entry (path : string) (info : FileInfo)
| Broken (path : string) (err : error).

(** [strings.HasSuffix]:
    [len(s) >= len(suffix) && s[len(s)-len(suffix):] == suffix]. *)
Definition HasSuffix (s suffix : string) : bool :=
  bool_decide (String.length suffix ≤ String.length s) &&
  bool_decide (String.substring (String.length s - String.length suffix)
                 (String.length suffix) s = suffix).

Section Walk.

(** [strings.ToLower] *)
Variable ToLower : string → string.

(** The function literal of main.go:123-133, with the captured slice
    [nessusFiles] passed through. *)
Definition walkFn (nessusFiles : list string) (v : visit)
  : list string * option error :=
  match v with
  | Broken path err => (nessusFiles, Some err)
  | Entry path info =>
      if negb (FileInfo_IsDir info) &&
         HasSuffix (ToLower (FileInfo_Name info)) ".nessus"
      then (nessusFiles ++ [path], None)
      else (nessusFiles, None)
  end.

Fixpoint filepath_Walk (visits : list visit) (nessusFiles : list string)
  : list string * option error :=
  match visits with
  | [] => (nessusFiles, None)
  | v :: rest =>
      match walkFn nessusFiles v with
      | (nessusFiles, Some err) => (nessusFiles, Some err)
      | (nessusFiles, None) => filepath_Walk rest nessusFiles
      end
  end.

(** [return nessusFiles, err] *)
Definition findNessusFiles (visits : list visit)
  : list string * option error :=
  filepath_Walk visits [].

End Walk.

(** An entry that the walk could examine. *)
Definition entryVisit (e : string * FileInfo) : visit := Entry e.1 e.2.

(** The test of main.go:128 on the info of an entry. *)
Definition isReport (ToLower : string → string) (info : FileInfo) : bool :=
  negb (FileInfo_IsDir info) &&
  HasSuffix (ToLower (FileInfo_Name info)) ".nessus".

(** ** The program and the outside world (main.go:61-296)

    The functions of main.go once more, now with every call that leaves the
    program written down: the file system, the console and the progress
    bar.  A program is a tree of such calls; what the outside answers is not
    fixed, so a property proved of every run holds whatever the files hold
    and whichever call fails.  The merge itself is the one defined above. *)

Module IO.

(** [*os.File] *)
Definition File := positive.

(** The calls.  [walk_Dir] is [filepath.Walk]: its answer is the sequence
    of calls it makes to the function it is given.  [fmt_Print] stands for
    [fmt.Println] and [fmt.Printf] with the text they write.
    [bar_NewOptions] is [progressbar.NewOptions] with the options of
    main.go:158-172, which are constants; the function given there as
    [OptionOnCompletion] is run by the bar. *)
Inductive call :=
| walk_Dir (root : string)
| os_Open (name : string)
| io_ReadAll (file : File)
| file_Close (file : File)
| os_MkdirAll (path : string) (perm : Z)
| os_Create (name : string)
| file_Write (file : File) (b : string)
| fmt_Print (text : string)
| bar_NewOptions (max : Z)
| bar_Describe (description : string)
| bar_Add (num : Z)
| bar_Finish.

(** What a call gives back. *)
Definition result (c : call) : Type :=
  match c with
  | walk_Dir _ => list visit
  | os_Open _ | os_Create _ => (error + File)%type
  | io_ReadAll _ => (error + string)%type
  | file_Close _ | os_MkdirAll _ _ | bar_Add _ => option error
  | file_Write _ _ => (Z * option error)%type
  | fmt_Print _ | bar_NewOptions _ | bar_Describe _ | bar_Finish => unit
  end.

(** A call together with its answer. *)
Definition event : Type := sigT result.

(** A program: it returns, or leaves through [os.Exit], or makes a call and
    goes on with the answer. *)
Inductive io (R : Type) : Type :=
| Return (r : R)
| os_Exit (code : Z)
| Do (c : call) (k : result c → io R).

Arguments Return {R} r.
Arguments os_Exit {R} code.
Arguments Do {R} c k.

Fixpoint bind {A B : Type} (m : io A) (f : A → io B) : io B :=
  match m with
  | Return a => f a
  | os_Exit code => os_Exit code
  | Do c k => Do c (λ a, bind (k a) f)
  end.

(** The outside world: a state, and an answer to every call. *)
Definition handler (W : Type) : Type := ∀ c : call, W → result c * W.

(** A run: the events in order, the exit status or the value returned, and
    the world afterwards. *)
Fixpoint run {W R : Type} (os : handler W) (m : io R) (w : W)
  : list event * (Z + R) * W :=
  match m with
  | Return r => ([], inr r, w)
  | os_Exit code => ([], inl code, w)
  | Do c k =>
      let '(a, w1) := os c w in
      let '(t, v, w2) := run os (k a) w1 in
      (existT c a :: t, v, w2)
  end.

(** [%d] of [fmt] for an [int]. *)
Definition fmt_d (n : Z) : string := NilZero.string_of_int (Z.to_int n).

(** The check mark of the messages, U+2713 in UTF-8. *)
Definition checkMark : string :=
  String (Ascii.ascii_of_nat 226)
    (String (Ascii.ascii_of_nat 156)
       (String (Ascii.ascii_of_nat 147) EmptyString)).

(** [defer file.Close()]: the file is closed when the function returns;
    what [Close] answers is dropped. *)
Definition deferred_Close {R : Type} (file : File) (r : R) : io R :=
  Do (file_Close file) (λ _, Return r).

Section Program.

Variable ToLower : string → string.
Variable filepath_Dir : string → string.
Variable filepath_Base : string → string.
Variable xml_Unmarshal : string → error + NessusClientData.
Variable EscapeString : string → string.
Variable rangeMap : gmap string ReportHost → list (string * ReportHost).

(** main.go:120-136 *)
Definition findNessusFiles (dir : string) : io (list string * option error) :=
  Do (walk_Dir dir) (λ visits, Return (findNessusFiles ToLower visits)).

(** main.go:251-270 *)
Definition parseNessusFile (filename : string)
  : io (error + NessusClientData) :=
  Do (os_Open filename) (λ opened,
    match opened with
    | inl err => Return (inl err)
    | inr file =>
        Do (io_ReadAll file) (λ read,
          match read with
          | inl err => deferred_Close file (inl err)
          | inr content =>
              match xml_Unmarshal content with
              | inl err => deferred_Close file (inl err)
              | inr data => deferred_Close file (inr data)
              end
          end)
    end).

(** main.go:139-149 *)
Fixpoint countFrom (totalCount : Z) (files : list string) : io (error + Z) :=
  match files with
  | [] => Return (inr totalCount)
  | file :: rest =>
      bind (parseNessusFile file) (λ parsed,
        match parsed with
        | inl err => Return (inl (parseErrorf file err))
        | inr data =>
            countFrom
              (int_add totalCount
                 (len (Report_ReportHosts (NessusClientData_Report data))))
              rest
        end)
  end.

Definition countTotalHosts (files : list string) : io (error + Z) :=
  countFrom 0 files.

(** The text of main.go:209-210. *)
Definition describeText (file : string) (st : MergeState) : string :=
  "Processing " +:+ filepath_Base file +:+
  " | U:" +:+ fmt_d (uniqueHosts st) +:+
  " M:" +:+ fmt_d (mergedHosts st) +:+
  " F:" +:+ fmt_d (totalFindings st).

(** The inner loop, main.go:192-212. *)
Fixpoint processHosts (file : string) (st : MergeState)
    (hosts : list ReportHost) : io MergeState :=
  match hosts with
  | [] => Return st
  | host :: rest =>
      let st := processHost st host in
      Do (bar_Describe (describeText file st)) (λ _,
      Do (bar_Add 1) (λ _,
      processHosts file st rest))
  end.

(** The outer loop, main.go:180-213, from index [i] on. *)
Fixpoint mergeFrom (i : nat) (files : list string) (st : MergeState)
  : io (error + MergeState) :=
  match files with
  | [] => Return (inr st)
  | file :: rest =>
      bind (parseNessusFile file) (λ parsed,
        match parsed with
        | inl err => Return (inl (parseErrorf file err))
        | inr data =>
            bind (processHosts file (setPolicy i data st)
                    (Report_ReportHosts (NessusClientData_Report data)))
                 (λ st, mergeFrom (S i) rest st)
        end)
  end.

(** The five lines of main.go:242-246. *)
Definition summary (st : MergeState) : list string :=
  [nl +:+ checkMark +:+ " Merge complete!" +:+ nl;
   "  Total hosts processed: " +:+ fmt_d (processedHosts st) +:+ nl;
   "  Unique hosts: " +:+ fmt_d (uniqueHosts st) +:+ nl;
   "  Hosts with merged findings: " +:+ fmt_d (mergedHosts st) +:+ nl;
   "  Total findings: " +:+ fmt_d (totalFindings st) +:+ nl].

(** Several [fmt.Printf] in a row. *)
Fixpoint printAll {R : Type} (texts : list string) (next : io R) : io R :=
  match texts with
  | [] => next
  | text :: rest => Do (fmt_Print text) (λ _, printAll rest next)
  end.

(** main.go:152-248 *)
Definition mergeNessusFiles (files : list string) (totalHosts : Z)
  : io (error + string) :=
  Do (bar_NewOptions totalHosts) (λ _,
  bind (mergeFrom 0 files initState) (λ merged,
    match merged with
    | inl err => Return (inl err)
    | inr st =>
        Do bar_Finish (λ _,
        let mergedData := buildMergedData rangeMap st in
        match xml_MarshalIndent EscapeString mergedData with
        | inl err => Return (inl ("error marshaling XML: " +:+ err))
        | inr output =>
            let result := xml_Header +:+ output in
            printAll (summary st) (Return (inr result))
        end)
    end)).

(** main.go:273-296 *)
Definition saveMergedReport (data : string) (filename : string)
  : io (option error) :=
  let dir := filepath_Dir filename in
  let create :=
    Do (os_Create filename) (λ created,
      match created with
      | inl err => Return (Some err)
      | inr file =>
          Do (file_Write file data) (λ written,
            deferred_Close file written.2)
      end) in
  if decide (dir ≠ ".") then
    Do (os_MkdirAll dir 493) (λ err,
      match err with
      | Some err => Return (Some err)
      | None => create
      end)
  else create.

(** The three lines of main.go:63-65. *)
Definition usage : list string :=
  ["Usage: nessusmerger <input_directory> [output_file]" +:+ nl;
   "  input_directory: Directory containing .nessus files to merge" +:+ nl;
   "  output_file: Output merged file (default: merged_nessus_report.nessus)"
   +:+ nl].

(** The parts of a run. *)
Definition trace {W R : Type} (r : list event * (Z + R) * W) : list event :=
  r.1.1.
Definition value {W R : Type} (r : list event * (Z + R) * W) : Z + R :=
  r.1.2.
Definition world {W R : Type} (r : list event * (Z + R) * W) : W := r.2.

(** [fmt.Printf] followed by [os.Exit(1)]. *)
Definition fail {R : Type} (text : string) : io R :=
  Do (fmt_Print text) (λ _, os_Exit 1).

(** main.go:61-117; [args] is [os.Args]. *)
Definition main (args : list string) : io unit :=
  if decide (len args < 2)%Z then printAll usage (os_Exit 1)
  else
    let inputDir := default EmptyString (args !! 1) in
    let outputFile :=
      if decide (len args > 2)%Z
      then default EmptyString (args !! 2)
      else "merged_nessus_report.nessus" in
    bind (findNessusFiles inputDir) (λ found,
    let nessusFiles := found.1 in
    match found.2 with
    | Some err => fail ("Error finding Nessus files: " +:+ err +:+ nl)
    | None =>
        if decide (len nessusFiles = 0)%Z then
          fail ("No .nessus files found in directory: " +:+ inputDir +:+ nl)
        else
          printAll
            (("Found " +:+ fmt_d (len nessusFiles) +:+
              " .nessus files to merge:" +:+ nl)
             :: ((λ file, "  - " +:+ file +:+ nl) <$> nessusFiles)
             ++ [nl +:+ "Scanning files for total host count..." +:+ nl])
            (bind (countTotalHosts nessusFiles) (λ counted,
             match counted with
             | inl err => fail ("Error counting hosts: " +:+ err +:+ nl)
             | inr totalHosts =>
                 Do (fmt_Print ("Total hosts to process: " +:+
                                fmt_d totalHosts +:+ nl +:+ nl)) (λ _,
                 bind (mergeNessusFiles nessusFiles totalHosts) (λ merged,
                 match merged with
                 | inl err =>
                     fail ("Error merging Nessus files: " +:+ err +:+ nl)
                 | inr mergedData =>
                     bind (saveMergedReport mergedData outputFile) (λ saved,
                     match saved with
                     | Some err =>
                         fail ("Error saving merged report: " +:+ err +:+ nl)
                     | None =>
                         Do (fmt_Print
                               (nl +:+ checkMark +:+ " Successfully merged " +:+
                                fmt_d (len nessusFiles) +:+ " files into " +:+
                                outputFile +:+ nl))
                            (λ _, Return ())
                     end)
                 end))
             end))
    end).

End Program.

End IO.

(** ** Vocabulary of the further properties *)


(** ** Example inputs for merging in batches

    A report that holds what the merge of the first two example reports
    returns, beside the example reports themselves. *)

Module Batches.

Definition docMerged : NessusClientData :=
  mk_NessusClientData (mk_xml_Name EmptyString "NessusClientData_v2")
    (mk_Policy (mk_xml_Name EmptyString "Policy") "<policyName>A</policyName>")
    (mk_Report (mk_xml_Name EmptyString "Report") "Merged Nessus Report"
       [Examples.host "10.0.0.1" "<tag>a1</tag>"
          [Examples.finding "f1"; Examples.finding "f2"; Examples.finding "f3";
           Examples.finding "f5"; Examples.finding "f6"];
        Examples.host "10.0.0.2" "<tag>a2</tag>" [Examples.finding "f4"]]).

Definition directory (file : string) : error + NessusClientData :=
  if decide (file = "merged.nessus") then inr docMerged
  else Examples.directory file.

End Batches.

(** A small machine to run the program on: a file system with three
    directories, and a console and a progress bar that accept everything. *)
Module Machine.

(** The world is the name of the file that is open. *)
Definition World : Type := option string.

(** [strings.ToLower] on the letters A to Z. *)
Fixpoint ToLower (s : string) : string :=
  match s with
  | EmptyString => EmptyString
  | String c rest =>
      let n := Ascii.nat_of_ascii c in
      String (if (65 <=? n)%nat && (n <=? 90)%nat
              then Ascii.ascii_of_nat (n + 32) else c)
             (ToLower rest)
  end.

Definition slash : Ascii.ascii := Ascii.ascii_of_nat 47.

Fixpoint hasSlash (s : string) : bool :=
  match s with
  | EmptyString => false
  | String c rest => bool_decide (c = slash) || hasSlash rest
  end.

(** [filepath.Base] of a clean relative name. *)
Fixpoint filepath_Base (s : string) : string :=
  match s with
  | EmptyString => EmptyString
  | String c rest =>
      if hasSlash rest then filepath_Base rest
      else if bool_decide (c = slash) then rest else s
  end.

Fixpoint beforeLastSlash (s : string) : string :=
  match s with
  | EmptyString => EmptyString
  | String c rest =>
      if hasSlash rest then String c (beforeLastSlash rest) else EmptyString
  end.

(** [filepath.Dir] of a clean relative name. *)
Definition filepath_Dir (s : string) : string :=
  if hasSlash s then beforeLastSlash s else ".".

Definition file (name : string) : FileInfo := mk_FileInfo name false.
Definition folder (name : string) : FileInfo := mk_FileInfo name true.

(** What [filepath.Walk] visits below each directory. *)
Definition walk (root : string) : list visit :=
  if decide (root = "scans") then
    [Entry "scans" (folder "scans");
     Entry "scans/B.NESSUS" (file "B.NESSUS");
     Entry "scans/a.nessus" (file "a.nessus");
     Entry "scans/notes.txt" (file "notes.txt")]
  else if decide (root = "bad") then
    [Entry "bad" (folder "bad");
     Entry "bad/a.nessus" (file "a.nessus");
     Entry "bad/broken.nessus" (file "broken.nessus")]
  else if decide (root = "empty") then
    [Entry "empty" (folder "empty")]
  else
    [Broken root ("lstat " +:+ root +:+ ": no such file or directory")].

(** The bytes of the files, each standing for a whole document. *)
Definition contents (name : string) : option string :=
  if decide (name = "scans/a.nessus") then Some "A"
  else if decide (name = "scans/B.NESSUS") then Some "B"
  else if decide (name = "bad/a.nessus") then Some "A"
  else if decide (name = "bad/broken.nessus") then Some "<"
  else None.

Definition xml_Unmarshal (content : string) : error + NessusClientData :=
  if decide (content = "A") then inr Examples.docA
  else if decide (content = "B") then inr Examples.docB
  else inl "XML syntax error on line 1: unexpected EOF".

(** What parsing a file gives on this machine. *)
Definition parse (name : string) : error + NessusClientData :=
  match contents name with
  | Some content => xml_Unmarshal content
  | None => inl ("open " +:+ name +:+ ": no such file or directory")
  end.

Definition os : IO.handler World :=
  λ c w,
    match c return IO.result c * World with
    | IO.walk_Dir root => (walk root, w)
    | IO.os_Open name =>
        match contents name with
        | Some _ => (inr 1%positive, Some name)
        | None =>
            (inl ("open " +:+ name +:+ ": no such file or directory"), w)
        end
    | IO.io_ReadAll _ =>
        (match w ≫= contents with
         | Some content => inr content
         | None => inl "read: file already closed"
         end, w)
    | IO.file_Close _ => (None, None)
    | IO.os_MkdirAll _ _ => (None, w)
    | IO.os_Create _ => (inr 2%positive, w)
    | IO.file_Write _ b => ((Z.of_nat (String.length b), None), w)
    | IO.bar_Add _ => (None, w)
    | IO.fmt_Print _ | IO.bar_NewOptions _ | IO.bar_Describe _
    | IO.bar_Finish => ((), w)
    end.

Definition mergeNessusFiles
  : list string → Z → IO.io (error + string) :=
  IO.mergeNessusFiles filepath_Base xml_Unmarshal Examples.plainEscape
    Examples.keyOrder.

Definition main : list string → IO.io unit :=
  IO.main ToLower filepath_Dir filepath_Base xml_Unmarshal
    Examples.plainEscape Examples.keyOrder.

End Machine.

(** ** Vocabulary of the properties of runs *)

(** An event: a call and what it was answered. *)
Definition ev (c : IO.call) (a : IO.result c) : IO.event := existT c a.

(** The calls of a trace, without the answers. *)
Definition calls (t : list IO.event) : list IO.call := projT1 <$> t.

(** A call that creates or changes something in the file system. *)
Definition writing (c : IO.call) : bool :=
  match c with
  | IO.os_MkdirAll _ _ | IO.os_Create _ | IO.file_Write _ _ => true
  | _ => false
  end.

(** The names passed to [os.Open], in order. *)
Definition opened (t : list IO.event) : list string :=
  omap (λ c, match c with IO.os_Open name => Some name | _ => None end)
       (calls t).

(** The file that is open after an event, when [held] was open before it;
    [None] when the event breaks the rule that at most one file is open at
    a time and that a file is read, written and closed only while it is
    open. *)
Definition fileStep (held : option IO.File) (e : IO.event)
  : option (option IO.File) :=
  match e with
  | existT c a =>
      match c return IO.result c → option (option IO.File) with
      | IO.os_Open _ => λ a,
          match a with
          | inl _ => Some held
          | inr file => if decide (held = None) then Some (Some file) else None
          end
      | IO.os_Create _ => λ a,
          match a with
          | inl _ => Some held
          | inr file => if decide (held = None) then Some (Some file) else None
          end
      | IO.io_ReadAll file => λ _,
          if decide (held = Some file) then Some held else None
      | IO.file_Write file _ => λ _,
          if decide (held = Some file) then Some held else None
      | IO.file_Close file => λ _,
          if decide (held = Some file) then Some None else None
      | _ => λ _, Some held
      end a
  end.

Fixpoint fileState (held : option IO.File) (t : list IO.event)
  : option (option IO.File) :=
  match t with
  | [] => Some held
  | e :: t =>
      match fileStep held e with
      | Some held => fileState held t
      | None => None
      end
  end.

(** The files do not change while the program runs: whenever it is parsed,
    a file gives what [parse] says. *)
Definition static {W : Type} (os : IO.handler W)
    (xml_Unmarshal : string → error + NessusClientData)
    (parse : string → error + NessusClientData) : Prop :=
  ∀ w name,
    IO.value (IO.run os (IO.parseNessusFile xml_Unmarshal name) w)
    = inr (parse name).

(** A call to the console or to the progress bar. *)
Definition console (c : IO.call) : bool :=
  match c with
  | IO.fmt_Print _ | IO.bar_NewOptions _ | IO.bar_Describe _ | IO.bar_Add _
  | IO.bar_Finish => true
  | _ => false
  end.

(** A property of traces holds of every run of a program. *)
Definition always {W R : Type} (os : IO.handler W)
    (Q : list IO.event → Prop) (m : IO.io R) : Prop :=
  ∀ w, Q (IO.trace (IO.run os m w)).

(** Every file that was opened or created has been closed, and none was
    used while it was not open. *)
Definition filesClosed (t : list IO.event) : Prop :=
  fileState None t = Some None.

(** Nothing was created or changed in the file system. *)
Definition nothingWritten (t : list IO.event) : Prop :=
  Forall (λ c, writing c = false) (calls t).

(** Only the console and the progress bar were called. *)
Definition consoleOnly (t : list IO.event) : Prop :=
  Forall (λ c, console c = true) (calls t).

(** What was done with the progress bar, in order: its creation with a
    maximum, and the steps by which it was advanced. *)
Inductive barUse :=
| Created (max : Z)
| Advanced (num : Z).

Definition barUses (t : list IO.event) : list barUse :=
  omap (λ c, match c with
             | IO.bar_NewOptions max => Some (Created max)
             | IO.bar_Add num => Some (Advanced num)
             | _ => None
             end)
       (calls t).

(** The events of printing the given texts. *)
Definition printed (texts : list string) : list IO.event :=
  (λ text, ev (IO.fmt_Print text) ()) <$> texts.

(** * Properties *)

(** ** Go's [int] *)

Lemma int_wrap_small z : (- 2 ^ 63 ≤ z ≤ int_max)%Z → int_wrap z = z.
Proof.
  unfold int_wrap, int_max. intros Hz.
  rewrite Z.mod_small by lia. lia.
Qed.

Lemma int_add_wrap z k : int_add (int_wrap z) k = int_wrap (z + k).
Proof.
  unfold int_add, int_wrap.
  f_equal.
  replace ((z + 2 ^ 63) mod 2 ^ 64 - 2 ^ 63 + k + 2 ^ 63)%Z
    with ((z + 2 ^ 63) mod 2 ^ 64 + k)%Z by lia.
  rewrite Zplus_mod_idemp_l. f_equal. lia.
Qed.

Lemma int_wrap_le z : (0 ≤ z)%Z → (int_wrap z ≤ z)%Z.
Proof.
  intros Hz. unfold int_wrap.
  destruct (decide (z < 2 ^ 63)%Z) as [Hlt|Hge].
  - rewrite Z.mod_small by lia. lia.
  - pose proof (Z.mod_pos_bound (z + 2 ^ 63) (2 ^ 64)). lia.
Qed.

(** ** Strings *)

Lemma string_app_assoc (a b c : string) : (a +:+ b) +:+ c = a +:+ b +:+ c.
Proof.
  induction a as [|x a IH]; [reflexivity|].
  cbv [String.append]. fold String.append. by rewrite IH.
Qed.

Lemma string_app_nil_r (a : string) : a +:+ EmptyString = a.
Proof.
  induction a as [|x a IH]; [reflexivity|].
  cbv [String.append]. fold String.append. by rewrite IH.
Qed.

Lemma occursIn_app_l s t u : occursIn s t → occursIn s (t +:+ u).
Proof.
  intros (a & b & ->). exists a, (b +:+ u).
  by rewrite !string_app_assoc.
Qed.

Lemma occursIn_app_r s t u : occursIn s t → occursIn s (u +:+ t).
Proof.
  intros (a & b & ->). exists (u +:+ a), b.
  by rewrite !string_app_assoc.
Qed.

Lemma occursIn_refl s : occursIn s s.
Proof. exists EmptyString, EmptyString. by rewrite string_app_nil_r. Qed.

(** ** The printer only appends *)

Lemma extends_refl p : extends p p.
Proof. exists EmptyString. by rewrite string_app_nil_r. Qed.

Lemma extends_trans p q r : extends p q → extends q r → extends p r.
Proof.
  intros [w Hw] [v Hv]. exists (w +:+ v).
  by rewrite Hv, Hw, string_app_assoc.
Qed.

Lemma occursIn_extends s p q :
  occursIn s (buf p) → extends p q → occursIn s (buf q).
Proof. intros Hs [w ->]. by apply occursIn_app_l. Qed.

Lemma extends_WriteString s p : extends p (WriteString s p).
Proof. by exists s. Qed.

Lemma extends_writeIndent k p : extends p (writeIndent k p).
Proof.
  unfold writeIndent.
  destruct (bool_decide (k < 0)%Z), (indentedIn p), (putNewline p),
    (bool_decide (0 < k)%Z); unfold extends; cbn [andb buf];
    first [ exists EmptyString; by rewrite string_app_nil_r
          | eexists; rewrite ?string_app_assoc; reflexivity ].
Qed.

Lemma extends_writeEnd name p : extends p (writeEnd name p).
Proof.
  unfold writeEnd.
  eapply extends_trans; [apply extends_writeIndent|apply extends_WriteString].
Qed.

Lemma extends_foldl {X} (f : printer → X → printer) l :
  (∀ p x, extends p (f p x)) → ∀ p, extends p (foldl f p l).
Proof.
  intros Hf. induction l as [|x l IH]; intros p; simpl.
  - apply extends_refl.
  - eapply extends_trans; [apply Hf|apply IH].
Qed.

Lemma occursIn_foldl {X} (f : printer → X → printer) (g : X → string) l x :
  (∀ p y, extends p (f p y)) →
  (∀ p, occursIn (g x) (buf (f p x))) →
  x ∈ l → ∀ p, occursIn (g x) (buf (foldl f p l)).
Proof.
  intros Hext Hocc. induction l as [|y l IH]; intros Hin p.
  - by apply elem_of_nil in Hin.
  - simpl. apply elem_of_cons in Hin as [->|Hin].
    + eapply occursIn_extends; [apply Hocc|by apply extends_foldl].
    + by apply IH.
Qed.

Section MarshalFacts.

Variable EscapeString : string → string.

Lemma extends_writeAttr p a : extends p (writeAttr EscapeString p a).
Proof. apply extends_WriteString. Qed.

Lemma extends_writeStart name attrs p :
  extends p (writeStart EscapeString name attrs p).
Proof.
  unfold writeStart.
  eapply extends_trans; [apply extends_writeIndent|].
  eapply extends_trans; [apply extends_WriteString|].
  eapply extends_trans; [|apply extends_WriteString].
  apply extends_foldl, extends_writeAttr.
Qed.

Lemma indentedIn_foldl_writeAttr attrs p :
  indentedIn (foldl (writeAttr EscapeString) p attrs) = indentedIn p.
Proof.
  revert p. induction attrs as [|a attrs IH]; intros p; [done|].
  simpl. by rewrite IH.
Qed.

Lemma indentedIn_writeStart name attrs p :
  indentedIn (writeStart EscapeString name attrs p) = true.
Proof.
  unfold writeStart. simpl. by rewrite indentedIn_foldl_writeAttr.
Qed.

(** An element whose body is raw text: the end tag follows the body
    directly, without a line break. *)
Lemma writeEnd_after_raw name attrs body end_name p :
  buf (writeEnd end_name
         (WriteString body (writeStart EscapeString name attrs p)))
  = buf (writeStart EscapeString name attrs p) +:+ body +:+
    "</" +:+ end_name +:+ ">".
Proof.
  unfold writeEnd, writeIndent.
  change (bool_decide (-1 < 0)%Z) with true.
  cbn [indentedIn WriteString andb].
  rewrite indentedIn_writeStart. cbn [buf WriteString].
  by rewrite string_app_assoc.
Qed.

Lemma buf_writeStart_nil name p :
  buf (writeStart EscapeString name [] p)
  = buf (writeIndent 1 p) +:+ "<" +:+ name +:+ ">".
Proof.
  unfold writeStart. cbn [foldl WriteString buf].
  by rewrite !string_app_assoc.
Qed.

Lemma extends_marshalPolicy v p :
  extends p (marshalPolicy EscapeString v p).
Proof.
  unfold marshalPolicy.
  eapply extends_trans; [apply extends_writeStart|].
  eapply extends_trans; [apply extends_WriteString|apply extends_writeEnd].
Qed.

Lemma extends_marshalHostProperties v p :
  extends p (marshalHostProperties EscapeString v p).
Proof.
  unfold marshalHostProperties.
  eapply extends_trans; [apply extends_writeStart|].
  eapply extends_trans; [apply extends_WriteString|apply extends_writeEnd].
Qed.

Lemma extends_marshalReportItem p v :
  extends p (marshalReportItem EscapeString p v).
Proof.
  unfold marshalReportItem.
  eapply extends_trans; [apply extends_writeStart|].
  eapply extends_trans; [apply extends_WriteString|apply extends_writeEnd].
Qed.

Lemma extends_marshalReportHost p v :
  extends p (marshalReportHost EscapeString p v).
Proof.
  unfold marshalReportHost.
  eapply extends_trans; [apply extends_writeStart|].
  eapply extends_trans; [apply extends_marshalHostProperties|].
  eapply extends_trans; [|apply extends_writeEnd].
  apply extends_foldl, extends_marshalReportItem.
Qed.

Lemma extends_marshalReport v p :
  extends p (marshalReport EscapeString v p).
Proof.
  unfold marshalReport.
  eapply extends_trans; [apply extends_writeStart|].
  eapply extends_trans; [|apply extends_writeEnd].
  apply extends_foldl, extends_marshalReportHost.
Qed.

(** What each element contributes to the output. *)

Lemma marshalPolicy_raw v p :
  occursIn ("<Policy>" +:+ Policy_Content v +:+ "</Policy>")
           (buf (marshalPolicy EscapeString v p)).
Proof.
  unfold marshalPolicy.
  rewrite writeEnd_after_raw, buf_writeStart_nil.
  exists (buf (writeIndent 1 p)), EmptyString.
  rewrite !string_app_assoc. reflexivity.
Qed.

Lemma marshalHostProperties_raw v p :
  occursIn
    ("<HostProperties>" +:+ HostProperties_Content v +:+ "</HostProperties>")
    (buf (marshalHostProperties EscapeString v p)).
Proof.
  unfold marshalHostProperties.
  rewrite writeEnd_after_raw, buf_writeStart_nil.
  exists (buf (writeIndent 1 p)), EmptyString.
  rewrite !string_app_assoc. reflexivity.
Qed.

Lemma marshalReportItem_raw p v :
  occursIn (">" +:+ ReportItem_Content v +:+ "</ReportItem>")
           (buf (marshalReportItem EscapeString p v)).
Proof.
  unfold marshalReportItem.
  rewrite writeEnd_after_raw.
  unfold writeStart at 1. cbn [buf WriteString].
  rewrite !string_app_assoc.
  apply occursIn_app_r. exact (occursIn_refl _).
Qed.

Lemma marshalReport_name v p :
  occursIn ("<Report name=" +:+ dquote +:+ EscapeString (Report_Name v) +:+
            dquote +:+ ">")
           (buf (marshalReport EscapeString v p)).
Proof.
  unfold marshalReport.
  eapply occursIn_extends; [|apply extends_writeEnd].
  eapply occursIn_extends;
    [|apply extends_foldl, extends_marshalReportHost].
  unfold writeStart, writeAttr. cbn [foldl buf WriteString fst snd].
  rewrite !string_app_assoc.
  apply occursIn_app_r. exact (occursIn_refl _).
Qed.

Lemma marshalReportHost_properties p v :
  occursIn
    ("<HostProperties>" +:+
     HostProperties_Content (ReportHost_HostProperties v) +:+
     "</HostProperties>")
    (buf (marshalReportHost EscapeString p v)).
Proof.
  unfold marshalReportHost.
  eapply occursIn_extends; [apply marshalHostProperties_raw|].
  eapply extends_trans; [|apply extends_writeEnd].
  apply extends_foldl, extends_marshalReportItem.
Qed.

Lemma marshalReportHost_item p v it :
  it ∈ ReportHost_ReportItems v →
  occursIn (">" +:+ ReportItem_Content it +:+ "</ReportItem>")
           (buf (marshalReportHost EscapeString p v)).
Proof.
  intros Hin. unfold marshalReportHost.
  eapply occursIn_extends; [|apply extends_writeEnd].
  apply (occursIn_foldl (marshalReportItem EscapeString)
           (λ it, ">" +:+ ReportItem_Content it +:+ "</ReportItem>"));
    auto using extends_marshalReportItem, marshalReportItem_raw.
Qed.

Lemma marshalReport_host v p h (g : ReportHost → string) :
  (∀ q, occursIn (g h) (buf (marshalReportHost EscapeString q h))) →
  h ∈ Report_ReportHosts v →
  occursIn (g h) (buf (marshalReport EscapeString v p)).
Proof.
  intros Hg Hin. unfold marshalReport.
  eapply occursIn_extends; [|apply extends_writeEnd].
  apply (occursIn_foldl (marshalReportHost EscapeString) g);
    auto using extends_marshalReportHost.
Qed.

Lemma marshalNessusClientData_policy v p :
  occursIn ("<Policy>" +:+ Policy_Content (NessusClientData_Policy v) +:+
            "</Policy>")
           (buf (marshalNessusClientData EscapeString v p)).
Proof.
  unfold marshalNessusClientData.
  eapply occursIn_extends; [apply marshalPolicy_raw|].
  eapply extends_trans; [apply extends_marshalReport|apply extends_writeEnd].
Qed.

Lemma marshalNessusClientData_report v p s :
  (∀ q, occursIn s
          (buf (marshalReport EscapeString (NessusClientData_Report v) q))) →
  occursIn s (buf (marshalNessusClientData EscapeString v p)).
Proof.
  intros Hs. unfold marshalNessusClientData.
  eapply occursIn_extends; [apply Hs|apply extends_writeEnd].
Qed.

End MarshalFacts.

(** ** The accumulator after a sequence of host occurrences *)

Lemma appendItems_nil h : appendItems h [] = h.
Proof. destruct h. unfold appendItems. simpl. by rewrite app_nil_r. Qed.

Lemma appendItems_appendItems h a b :
  appendItems (appendItems h a) b = appendItems h (a ++ b).
Proof. unfold appendItems. simpl. by rewrite app_assoc. Qed.

Lemma named_snoc n hs x :
  named n (hs ++ [x])
  = named n hs ++ (if decide (ReportHost_Name x = n) then [x] else []).
Proof.
  unfold named. by rewrite filter_app.
Qed.

Lemma named_app n a b : named n (a ++ b) = named n a ++ named n b.
Proof. unfold named. by rewrite filter_app. Qed.

Lemma named_cons n x l :
  named n (x :: l)
  = if decide (ReportHost_Name x = n) then x :: named n l else named n l.
Proof. unfold named. by rewrite filter_cons. Qed.

Lemma named_name n hs h : h ∈ named n hs → ReportHost_Name h = n.
Proof. unfold named. rewrite list_elem_of_filter. tauto. Qed.

Lemma named_nil n hs : named n hs = [] ↔ n ∉ hostNames hs.
Proof.
  unfold named, hostNames. split.
  - intros Hnil (h & -> & Hin)%list_elem_of_fmap.
    by eapply (filter_nil_not_elem_of _ _ h Hnil).
  - intros Hn. destruct (filter _ hs) as [|h l] eqn:E; [done|].
    exfalso. apply Hn.
    assert (h ∈ filter (λ h, ReportHost_Name h = n) hs) as Hh
      by (rewrite E; left).
    apply list_elem_of_filter in Hh as [<- Hh].
    by apply list_elem_of_fmap_2.
Qed.

Lemma itemsOf_app a b : itemsOf (a ++ b) = itemsOf a ++ itemsOf b.
Proof. apply bind_app. Qed.

Lemma itemsOf_singleton x : itemsOf [x] = ReportHost_ReportItems x.
Proof. unfold itemsOf. rewrite bind_cons. simpl. by rewrite app_nil_r. Qed.

Lemma findingsOf_app a b : findingsOf (a ++ b) = findingsOf a ++ findingsOf b.
Proof. apply bind_app. Qed.

Lemma findingsOf_cons x l : findingsOf (x :: l) = findingsOf [x] ++ findingsOf l.
Proof. by rewrite <- findingsOf_app. Qed.

Lemma findingsOf_appendItems e items :
  findingsOf [appendItems e items]
  = findingsOf [e] ++ ((λ it, (ReportHost_Name e, it)) <$> items).
Proof.
  unfold findingsOf. rewrite !bind_cons. simpl. rewrite !app_nil_r.
  by rewrite fmap_app.
Qed.

Lemma hostsOf_cons d docs : hostsOf (d :: docs) = docHosts d ++ hostsOf docs.
Proof. apply bind_cons. Qed.

Lemma hostsOf_concat docs : hostsOf docs = concat (docHosts <$> docs).
Proof.
  induction docs as [|d docs IH]; [done|].
  rewrite hostsOf_cons, fmap_cons, IH. done.
Qed.

Lemma mergedEntry_name n hs v :
  mergedEntry n hs = Some v → ReportHost_Name v = n.
Proof.
  unfold mergedEntry. destruct (named n hs) as [|h0 later] eqn:E; [done|].
  intros [= <-]. simpl. apply (named_name n hs). rewrite E. left.
Qed.

Lemma mergedEntry_None n hs : mergedEntry n hs = None ↔ n ∉ hostNames hs.
Proof.
  rewrite <- named_nil. unfold mergedEntry.
  by destruct (named n hs).
Qed.

(** One step of the inner loop leaves the other host names alone. *)
Lemma processHost_lookup_ne st x n :
  ReportHost_Name x ≠ n →
  hostMap (processHost st x) !! n = hostMap st !! n.
Proof.
  intros Hne. unfold processHost.
  destruct (hostMap st !! ReportHost_Name x); simpl;
    by rewrite lookup_insert_ne.
Qed.

Lemma processHost_basePolicy st x :
  basePolicy (processHost st x) = basePolicy st.
Proof. unfold processHost. by destruct (hostMap st !! _). Qed.

Lemma processHost_withPolicy p st x :
  processHost (withPolicy p st) x = withPolicy p (processHost st x).
Proof.
  unfold processHost, withPolicy. simpl.
  by destruct (hostMap st !! ReportHost_Name x).
Qed.

Lemma foldl_processHost_withPolicy p hs st :
  foldl processHost (withPolicy p st) hs
  = withPolicy p (foldl processHost st hs).
Proof.
  revert st. induction hs as [|x hs IH]; intros st; [done|].
  simpl. by rewrite processHost_withPolicy, IH.
Qed.

(** The accumulator holds, for every host name, the first occurrence with
    the findings of all later occurrences appended in order. *)
Lemma run_lookup hs n :
  hostMap (foldl processHost initState hs) !! n = mergedEntry n hs.
Proof.
  revert n. induction hs as [|x hs IH] using rev_ind; intros n.
  - simpl. by rewrite lookup_empty.
  - rewrite foldl_snoc.
    destruct (decide (ReportHost_Name x = n)) as [<-|Hne].
    + unfold processHost. rewrite IH.
      unfold mergedEntry. rewrite named_snoc, decide_True by done.
      destruct (named (ReportHost_Name x) hs) as [|h0 later]; simpl;
        rewrite lookup_insert_eq; f_equal.
      * by rewrite appendItems_nil.
      * by rewrite appendItems_appendItems, itemsOf_app, itemsOf_singleton.
    + rewrite processHost_lookup_ne, IH by done.
      unfold mergedEntry. rewrite named_snoc, decide_False by done.
      by rewrite app_nil_r.
Qed.

Lemma run_names hs k v :
  hostMap (foldl processHost initState hs) !! k = Some v →
  ReportHost_Name v = k.
Proof. rewrite run_lookup. apply mergedEntry_name. Qed.

Lemma run_basePolicy hs :
  basePolicy (foldl processHost initState hs) = zero_Policy.
Proof.
  induction hs as [|x hs IH] using rev_ind; [done|].
  by rewrite foldl_snoc, processHost_basePolicy.
Qed.

(** The keys of the accumulator are the distinct host names seen. *)
Lemma run_size hs :
  size (hostMap (foldl processHost initState hs)) = distinctNames hs.
Proof.
  unfold distinctNames.
  rewrite <- length_map_to_list,
    <- (length_fmap fst (map_to_list (hostMap _))).
  apply Permutation_length, NoDup_Permutation.
  - apply NoDup_fst_map_to_list.
  - apply NoDup_remove_dups.
  - intros k. rewrite elem_of_remove_dups. split.
    + intros ([k' v] & -> & Hkv)%list_elem_of_fmap. simpl.
      apply elem_of_map_to_list in Hkv. rewrite run_lookup in Hkv.
      destruct (decide (k' ∈ hostNames hs)) as [|Hn]; [done|].
      apply mergedEntry_None in Hn. congruence.
    + intros Hk.
      destruct (mergedEntry k hs) as [v|] eqn:E.
      * apply list_elem_of_fmap. exists (k, v). split; [done|].
        apply elem_of_map_to_list. by rewrite run_lookup.
      * by apply mergedEntry_None in E.
Qed.

(** The counters, as 64-bit integers. *)
Lemma run_counters hs :
  let st := foldl processHost initState hs in
  processedHosts st = int_wrap (Z.of_nat (length hs)) ∧
  uniqueHosts st = int_wrap (Z.of_nat (size (hostMap st))) ∧
  mergedHosts st
    = int_wrap (Z.of_nat (length hs) - Z.of_nat (size (hostMap st))) ∧
  totalFindings st = int_wrap (Z.of_nat (length (itemsOf hs))).
Proof.
  induction hs as [|x hs IH] using rev_ind.
  - simpl. by rewrite map_size_empty.
  - cbv zeta in *. rewrite foldl_snoc.
    set (st := foldl processHost initState hs) in *.
    destruct IH as (Hp & Hu & Hm & Ht).
    rewrite itemsOf_app, itemsOf_singleton, !length_app.
    change (length [x]) with 1.
    unfold processHost, len.
    destruct (hostMap st !! ReportHost_Name x) as [e|] eqn:E;
      cbn [processedHosts uniqueHosts mergedHosts totalFindings hostMap];
      rewrite Hp, ?Hu, ?Hm, Ht, !int_add_wrap.
    + rewrite map_size_insert_Some by done.
      repeat split; f_equal; lia.
    + rewrite map_size_insert_None by done.
      repeat split; f_equal; lia.
Qed.

#[global] Instance findingsOf_Permutation :
  Proper ((≡ₚ) ==> (≡ₚ)) findingsOf.
Proof. intros l k Hlk. unfold findingsOf. by rewrite Hlk. Qed.

#[global] Instance itemsOf_Permutation : Proper ((≡ₚ) ==> (≡ₚ)) itemsOf.
Proof. intros l k Hlk. unfold itemsOf. by rewrite Hlk. Qed.

(** One step of the inner loop adds the findings of the host, under the
    host's name, to those held by the accumulator. *)
Lemma processHost_findings st x :
  (∀ k v, hostMap st !! k = Some v → ReportHost_Name v = k) →
  findingsOf ((map_to_list (hostMap (processHost st x))).*2)
  ≡ₚ findingsOf ((map_to_list (hostMap st)).*2) ++ findingsOf [x].
Proof.
  intros Hnames. unfold processHost.
  destruct (hostMap st !! ReportHost_Name x) as [e|] eqn:E; cbn [hostMap].
  - rewrite <- insert_delete_eq.
    rewrite map_to_list_insert by apply lookup_delete_eq.
    rewrite <- (map_to_list_delete _ _ _ E).
    rewrite !fmap_cons. cbn [snd].
    rewrite (findingsOf_cons (appendItems _ _)), (findingsOf_cons e).
    rewrite findingsOf_appendItems, (Hnames _ _ E).
    replace ((λ it, (ReportHost_Name x, it)) <$> ReportHost_ReportItems x)
      with (findingsOf [x])
      by (unfold findingsOf; rewrite bind_cons; simpl; by rewrite app_nil_r).
    rewrite <- !app_assoc. apply Permutation_app_head, Permutation_app_comm.
  - rewrite map_to_list_insert by done.
    rewrite fmap_cons. cbn [snd].
    rewrite findingsOf_cons. apply Permutation_app_comm.
Qed.

Lemma run_findings hs :
  findingsOf ((map_to_list (hostMap (foldl processHost initState hs))).*2)
  ≡ₚ findingsOf hs.
Proof.
  induction hs as [|x hs IH] using rev_ind.
  - simpl. by rewrite map_to_list_empty.
  - rewrite foldl_snoc, processHost_findings by apply run_names.
    by rewrite IH, findingsOf_app.
Qed.

Lemma processHost_new st x :
  hostMap st !! ReportHost_Name x = None →
  hostMap (processHost st x) = <[ReportHost_Name x := x]> (hostMap st).
Proof. intros Hnew. unfold processHost. by rewrite Hnew. Qed.

Lemma processHost_existing st x e :
  hostMap st !! ReportHost_Name x = Some e →
  hostMap (processHost st x)
  = <[ReportHost_Name x := appendItems e (ReportHost_ReportItems x)]>
      (hostMap st).
Proof. intros Hex. unfold processHost. by rewrite Hex. Qed.

(** With pairwise distinct host names nothing is merged. *)
Lemma run_distinct hs :
  NoDup (hostNames hs) →
  (map_to_list (hostMap (foldl processHost initState hs))).*2 ≡ₚ hs.
Proof.
  induction hs as [|x hs IH] using rev_ind; intros Hnd.
  - simpl. by rewrite map_to_list_empty.
  - unfold hostNames in Hnd. rewrite fmap_app in Hnd.
    apply NoDup_app in Hnd as (Hhs & Hx & _).
    assert (hostMap (foldl processHost initState hs) !! ReportHost_Name x
            = None) as Hnew.
    { rewrite run_lookup. apply mergedEntry_None.
      intros Hin. apply (Hx _ Hin). simpl. left. }
    rewrite foldl_snoc, (processHost_new _ _ Hnew).
    rewrite map_to_list_insert by done.
    rewrite fmap_cons. cbn [snd]. rewrite (IH Hhs).
    apply Permutation_cons_append.
Qed.

(** ** The loop over the files *)

Lemma setPolicy_later i d st : setPolicy (S i) d st = st.
Proof. unfold setPolicy. by destruct (decide (S i = 0)). Qed.

Section LoopFacts.

Variable parseNessusFile : string → error + NessusClientData.

Lemma mergeFrom_later files docs i st :
  parsed parseNessusFile files docs →
  mergeFrom parseNessusFile (S i) files st
  = inr (foldl processHost st (hostsOf docs)).
Proof.
  intros Hp. revert i st.
  induction Hp as [|file d files docs Hd _ IH]; intros i st; [done|].
  rewrite hostsOf_cons, foldl_app. cbn [mergeFrom].
  by rewrite Hd, IH, setPolicy_later.
Qed.

(** When every file parses, the loop ends in the state that the inner loop
    reaches over all host occurrences, with the first Policy. *)
Lemma mergeLoop_parsed files docs :
  parsed parseNessusFile files docs →
  mergeLoop parseNessusFile files
  = inr (withPolicy (firstPolicy docs)
           (foldl processHost initState (hostsOf docs))).
Proof.
  intros Hp. unfold mergeLoop.
  destruct Hp as [|file d files docs Hd Hp]; [done|].
  rewrite hostsOf_cons, foldl_app. cbn [mergeFrom firstPolicy].
  rewrite Hd, (mergeFrom_later _ _ _ _ Hp).
  change (setPolicy 0 d initState)
    with (withPolicy (NessusClientData_Policy d) initState).
  by rewrite <- !foldl_processHost_withPolicy.
Qed.

Lemma countFrom_parsed files docs c :
  parsed parseNessusFile files docs →
  countFrom parseNessusFile (int_wrap c) files
  = inr (int_wrap (c + Z.of_nat (length (hostsOf docs)))).
Proof.
  intros Hp. revert c.
  induction Hp as [|file d files docs Hd _ IH]; intros c.
  - simpl. do 2 f_equal. lia.
  - rewrite hostsOf_cons, length_app. cbn [countFrom].
    rewrite Hd, int_add_wrap, IH.
    unfold len, docHosts. do 2 f_equal. lia.
Qed.

(** The first file that does not parse ends both loops. *)
Lemma mergeFrom_failure pre bad post docs err i st :
  parsed parseNessusFile pre docs →
  parseNessusFile bad = inl err →
  mergeFrom parseNessusFile i (pre ++ bad :: post) st
  = inl (parseErrorf bad err).
Proof.
  intros Hp Hbad. revert i st.
  induction Hp as [|file d files docs Hd _ IH]; intros i st; simpl.
  - by rewrite Hbad.
  - by rewrite Hd, IH.
Qed.

Lemma countFrom_failure pre bad post docs err c :
  parsed parseNessusFile pre docs →
  parseNessusFile bad = inl err →
  countFrom parseNessusFile c (pre ++ bad :: post)
  = inl (parseErrorf bad err).
Proof.
  intros Hp Hbad. revert c.
  induction Hp as [|file d files docs Hd _ IH]; intros c; simpl.
  - by rewrite Hbad.
  - by rewrite Hd, IH.
Qed.

(** Every list of files either parses as a whole or has a first file that
    does not. *)
Lemma parsed_or_failure files :
  (∃ docs, parsed parseNessusFile files docs) ∨
  (∃ pre bad post docs err,
      files = pre ++ bad :: post ∧
      parsed parseNessusFile pre docs ∧
      parseNessusFile bad = inl err).
Proof.
  induction files as [|file files IH].
  - left. exists []. constructor.
  - destruct (parseNessusFile file) as [err|d] eqn:E.
    + right. exists [], file, files, [], err. repeat split; [constructor|done].
    + destruct IH as [[docs Hp]|(pre & bad & post & docs & err & -> & Hp & Hb)].
      * left. exists (d :: docs). by constructor.
      * right. exists (file :: pre), bad, post, (d :: docs), err.
        repeat split; [by constructor|done].
Qed.

End LoopFacts.

(** ** Counting *)

Lemma length_itemsOf hs : length (itemsOf hs) = findingCount hs.
Proof.
  unfold itemsOf, findingCount.
  induction hs as [|h hs IH]; [done|].
  rewrite bind_cons, length_app, IH. done.
Qed.

Lemma length_findingsOf hs : length (findingsOf hs) = findingCount hs.
Proof.
  unfold findingsOf, findingCount.
  induction hs as [|h hs IH]; [done|].
  rewrite bind_cons, length_app, length_fmap, IH. done.
Qed.

Lemma length_remove_dups (l : list string) :
  length (remove_dups l) ≤ length l.
Proof.
  induction l as [|x l IH]; [done|].
  simpl. destruct (decide_rel elem_of x l); simpl; lia.
Qed.

Lemma distinctNames_le hs : distinctNames hs ≤ length hs.
Proof.
  unfold distinctNames, hostNames.
  etrans; [apply length_remove_dups|]. by rewrite length_fmap.
Qed.

(** The findings of host name [n], document by document. *)
Lemma itemsOf_named_hostsOf n docs :
  itemsOf (named n (hostsOf docs))
  = docs ≫= (λ d, itemsOf (named n (docHosts d))).
Proof.
  induction docs as [|d docs IH]; [done|].
  rewrite hostsOf_cons, bind_cons, <- IH.
  unfold named. by rewrite filter_app, itemsOf_app.
Qed.

(** ** The accumulator as a list of hosts *)

Lemma named_values (m : gmap string ReportHost) n h :
  (∀ k v, m !! k = Some v → ReportHost_Name v = k) →
  m !! n = Some h →
  named n ((map_to_list m).*2) ≡ₚ [h].
Proof.
  intros Hnames Hn. unfold named.
  rewrite <- (map_to_list_delete _ _ _ Hn), fmap_cons. cbn [snd].
  rewrite filter_cons, decide_True by eauto.
  apply Permutation_skip.
  assert (filter (λ h0, ReportHost_Name h0 = n)
            (map_to_list (delete n m)).*2 = []) as ->; [|done].
  destruct (filter _ _) as [|v l] eqn:E; [done|]. exfalso.
  assert (v ∈ filter (λ h0, ReportHost_Name h0 = n)
            (map_to_list (delete n m)).*2) as Hv by (rewrite E; left).
  apply list_elem_of_filter in Hv as [Hname ([k v'] & -> & Hkv)%list_elem_of_fmap].
  apply elem_of_map_to_list in Hkv. simpl in Hname.
  destruct (decide (k = n)) as [->|Hne].
  - by rewrite lookup_delete_eq in Hkv.
  - rewrite lookup_delete_ne in Hkv by done.
    apply Hnames in Hkv. congruence.
Qed.

Lemma elem_of_values (m : gmap string ReportHost) h :
  h ∈ (map_to_list m).*2 ↔ ∃ k, m !! k = Some h.
Proof.
  rewrite list_elem_of_fmap. split.
  - intros ([k v] & -> & Hkv). exists k. by apply elem_of_map_to_list.
  - intros [k Hk]. exists (k, h). split; [done|].
    by apply elem_of_map_to_list.
Qed.

(** * The merge run *)

Section Merge.

Variable EscapeString : string → string.
Variable parseNessusFile : string → error + NessusClientData.
Variable rangeMap : gmap string ReportHost → list (string * ReportHost).

(** Go's [range] visits every entry of the map exactly once. *)
Hypothesis rangeMap_entries : ∀ m, rangeMap m ≡ₚ map_to_list m.

Local Abbreviation loop := (mergeLoop parseNessusFile).
Local Abbreviation parses := (parsed parseNessusFile).
Local Abbreviation merged := (buildMergedData rangeMap).
Local Abbreviation mergeFiles :=
  (mergeNessusFiles EscapeString parseNessusFile rangeMap).

Lemma collectHosts_values st :
  collectHosts rangeMap st = (rangeMap (hostMap st)).*2.
Proof.
  unfold collectHosts.
  assert (∀ l acc,
    foldl (λ (allHosts : list ReportHost) (kv : string * ReportHost),
             allHosts ++ [kv.2]) acc l = acc ++ l.*2) as Hfold.
  { induction l as [|kv l IH]; intros acc; simpl.
    - by rewrite app_nil_r.
    - by rewrite IH, <- app_assoc. }
  by rewrite Hfold.
Qed.

Lemma collectHosts_entries st :
  collectHosts rangeMap st ≡ₚ (map_to_list (hostMap st)).*2.
Proof. by rewrite collectHosts_values, rangeMap_entries. Qed.

(** The hosts of the merged document after a run over [docs]. *)
Lemma merged_hosts docs :
  docHosts
    (merged
       (withPolicy (firstPolicy docs)
          (foldl processHost initState (hostsOf docs))))
  ≡ₚ (map_to_list
        (hostMap (foldl processHost initState (hostsOf docs)))).*2.
Proof. exact (collectHosts_entries (withPolicy _ _)). Qed.

(** The bytes returned, in terms of the merged document. *)
Lemma mergeNessusFiles_parsed files docs total :
  parses files docs →
  mergeFiles files total
  = inr (xml_Header +:+
         buf (marshalNessusClientData EscapeString
                (merged
                   (withPolicy (firstPolicy docs)
                      (foldl processHost initState (hostsOf docs))))
                newPrinter)).
Proof.
  intros Hp. unfold mergeNessusFiles.
  by rewrite (mergeLoop_parsed _ _ _ Hp).
Qed.

(** C1.  Conservation: whatever the input documents, the findings of the
    merged document, each taken with the name of its host, are exactly the
    findings of the inputs, each as often as it occurs there; so the number
    of findings of the output is the sum over all inputs. *)
Theorem conservation files docs :
  parses files docs →
  ∃ st, loop files = inr st ∧
        findingsOf (docHosts (merged st))
        ≡ₚ findingsOf (hostsOf docs) ∧
        findingCount (docHosts (merged st))
        = findingCount (hostsOf docs).
Proof.
  intros Hp. eexists. split; [by apply mergeLoop_parsed|].
  assert (findingsOf
            (docHosts
               (merged
                  (withPolicy (firstPolicy docs)
                     (foldl processHost initState (hostsOf docs)))))
          ≡ₚ findingsOf (hostsOf docs)) as Hperm
    by (rewrite merged_hosts; apply run_findings).
  split; [done|].
  rewrite <- !length_findingsOf. by apply Permutation_length.
Qed.

(** The entry of the merged document for a host name that was seen. *)
Lemma merged_entry docs n :
  n ∈ hostNames (hostsOf docs) →
  ∃ h0 later,
    named n (hostsOf docs) = h0 :: later ∧
    named n
      (docHosts
         (merged
            (withPolicy (firstPolicy docs)
               (foldl processHost initState (hostsOf docs)))))
    = [appendItems h0 (itemsOf later)].
Proof.
  intros Hn.
  destruct (named n (hostsOf docs)) as [|h0 later] eqn:E.
  { by apply named_nil in E. }
  exists h0, later. split; [done|].
  apply Permutation_singleton_r.
  unfold named at 1. rewrite merged_hosts.
  apply named_values; [apply run_names|].
  rewrite run_lookup. unfold mergedEntry. by rewrite E.
Qed.

(** C2.  Host identity merge: a host name that occurs in the inputs has
    exactly one entry in the merged document; its finding list is the
    concatenation, in processing order, of the finding lists that the
    documents hold for that name, and so has as many entries as these
    together. *)
Theorem host_identity_merge files docs n :
  parses files docs →
  n ∈ hostNames (hostsOf docs) →
  ∃ st h, loop files = inr st ∧
          named n (docHosts (merged st)) = [h] ∧
          ReportHost_ReportItems h
          = docs ≫= (λ d, itemsOf (named n (docHosts d))) ∧
          length (ReportHost_ReportItems h)
          = sum_list_with (λ d, findingCount (named n (docHosts d))) docs.
Proof.
  intros Hp Hn.
  destruct (merged_entry docs n Hn) as (h0 & later & Hnamed & Hout).
  eexists _, _. split; [by apply mergeLoop_parsed|].
  split; [exact Hout|].
  assert (ReportHost_ReportItems (appendItems h0 (itemsOf later))
          = docs ≫= (λ d, itemsOf (named n (docHosts d)))) as Hitems.
  { rewrite <- itemsOf_named_hostsOf, Hnamed.
    change (h0 :: later) with ([h0] ++ later).
    by rewrite itemsOf_app, itemsOf_singleton. }
  split; [done|].
  rewrite Hitems. clear.
  induction docs as [|d docs IH]; [done|].
  rewrite bind_cons, length_app, IH, length_itemsOf. done.
Qed.

(** The counters at the end of a run.  A counter holds the number it counts
    as long as this number fits Go's [int]. *)
Lemma final_uniqueHosts docs :
  (Z.of_nat (distinctNames (hostsOf docs)) ≤ int_max)%Z →
  uniqueHosts
    (withPolicy (firstPolicy docs)
       (foldl processHost initState (hostsOf docs)))
  = Z.of_nat (distinctNames (hostsOf docs)).
Proof.
  intros Hfit.
  destruct (run_counters (hostsOf docs)) as (_ & Hu & _ & _).
  rewrite run_size in Hu. cbn [withPolicy uniqueHosts]. rewrite Hu.
  apply int_wrap_small. unfold int_max in *. lia.
Qed.

Lemma final_mergedHosts docs :
  (Z.of_nat (length (hostsOf docs) - distinctNames (hostsOf docs))
   ≤ int_max)%Z →
  mergedHosts
    (withPolicy (firstPolicy docs)
       (foldl processHost initState (hostsOf docs)))
  = Z.of_nat (length (hostsOf docs) - distinctNames (hostsOf docs)).
Proof.
  intros Hfit.
  destruct (run_counters (hostsOf docs)) as (_ & _ & Hm & _).
  rewrite run_size in Hm. cbn [withPolicy mergedHosts]. rewrite Hm.
  pose proof (distinctNames_le (hostsOf docs)) as Hle.
  rewrite <- Nat2Z.inj_sub by done.
  apply int_wrap_small. unfold int_max in *. lia.
Qed.

(** Wrapped or not, the two host counters together stay within the number
    of host occurrences. *)
Lemma final_counters_sum docs :
  let st := withPolicy (firstPolicy docs)
              (foldl processHost initState (hostsOf docs)) in
  (uniqueHosts st + mergedHosts st ≤ Z.of_nat (length (hostsOf docs)))%Z.
Proof.
  intros st.
  destruct (run_counters (hostsOf docs)) as (_ & Hu & Hm & _).
  rewrite run_size in Hu, Hm.
  pose proof (distinctNames_le (hostsOf docs)) as Hle.
  subst st. cbn [withPolicy uniqueHosts mergedHosts]. rewrite Hu, Hm.
  pose proof (int_wrap_le (Z.of_nat (distinctNames (hostsOf docs)))).
  pose proof (int_wrap_le (Z.of_nat (length (hostsOf docs))
                           - Z.of_nat (distinctNames (hostsOf docs)))).
  lia.
Qed.

Lemma final_totalFindings docs :
  (Z.of_nat (findingCount (hostsOf docs)) ≤ int_max)%Z →
  totalFindings
    (withPolicy (firstPolicy docs)
       (foldl processHost initState (hostsOf docs)))
  = Z.of_nat (findingCount (hostsOf docs)).
Proof.
  intros Hfit.
  destruct (run_counters (hostsOf docs)) as (_ & _ & _ & Ht).
  cbn [withPolicy totalFindings]. rewrite Ht, length_itemsOf.
  apply int_wrap_small. unfold int_max in *. lia.
Qed.

(** C3, as the code has it.  The merged-hosts counter is the number of host
    occurrences that met an entry of their name, that is all occurrences
    but the first of each name, and the total-findings counter is the sum
    of the finding counts of all occurrences, first ones included; each of
    the two numbers is taken to fit Go's [int]. *)
Theorem merge_counters files docs :
  parses files docs →
  (Z.of_nat (length (hostsOf docs) - distinctNames (hostsOf docs))
   ≤ int_max)%Z →
  (Z.of_nat (findingCount (hostsOf docs)) ≤ int_max)%Z →
  ∃ st, loop files = inr st ∧
        mergedHosts st
        = Z.of_nat (length (hostsOf docs) - distinctNames (hostsOf docs)) ∧
        totalFindings st = Z.of_nat (findingCount (hostsOf docs)).
Proof.
  intros Hp Hhosts Hfind.
  eexists. split; [by apply mergeLoop_parsed|].
  split; [by apply final_mergedHosts|by apply final_totalFindings].
Qed.

(** C4.  Policy selection: for a non-empty sequence of documents the
    Policy of the merged document is the Policy of the first document as
    it was parsed, and a run whose later documents list the same hosts
    returns the same bytes whatever their Policies are. *)
Theorem policy_of_first_document files d docs total :
  parses files (d :: docs) →
  ∃ st, loop files = inr st ∧
        NessusClientData_Policy (merged st) = NessusClientData_Policy d ∧
        ∀ files' docs' total',
          parses files' (d :: docs') →
          docHosts <$> docs' = docHosts <$> docs →
          mergeFiles files' total' = mergeFiles files total.
Proof.
  intros Hp. eexists. split; [by apply mergeLoop_parsed|].
  split; [done|].
  intros files' docs' total' Hp' Hhosts.
  rewrite (mergeNessusFiles_parsed _ _ _ Hp),
    (mergeNessusFiles_parsed _ _ _ Hp').
  assert (hostsOf (d :: docs') = hostsOf (d :: docs)) as ->; [|done].
  rewrite !hostsOf_cons. f_equal.
  by rewrite !hostsOf_concat, Hhosts.
Qed.

(** C5.  Properties of the first occurrence: every host name of the input
    has exactly one entry in the merged document, and that entry carries
    the Properties of the first occurrence of the name in processing order;
    the merged document has no other hosts.  Step by step: a host whose
    name is new is stored as it is, and a host whose name is present leaves
    the Properties of the entry as they are, whatever its own are. *)
Theorem first_properties_win files docs :
  parses files docs →
  ∃ st, loop files = inr st ∧
        (∀ n, n ∈ hostNames (hostsOf docs) →
              ∃ h h0 later,
                named n (docHosts (merged st)) = [h] ∧
                named n (hostsOf docs) = h0 :: later ∧
                ReportHost_HostProperties h
                = ReportHost_HostProperties h0) ∧
        (∀ h, h ∈ docHosts (merged st) →
              ∃ h0 later,
                named (ReportHost_Name h) (hostsOf docs) = h0 :: later ∧
                ReportHost_HostProperties h
                = ReportHost_HostProperties h0) ∧
        (∀ acc host,
            hostMap acc !! ReportHost_Name host = None →
            hostMap (processHost acc host) !! ReportHost_Name host
            = Some host) ∧
        (∀ acc host existingHost,
            hostMap acc !! ReportHost_Name host = Some existingHost →
            ∃ e, hostMap (processHost acc host) !! ReportHost_Name host
                 = Some e ∧
                 ReportHost_HostProperties e
                 = ReportHost_HostProperties existingHost).
Proof.
  intros Hp. eexists. split; [by apply mergeLoop_parsed|].
  split; [|split; [|split]].
  - intros n Hn.
    destruct (merged_entry docs n Hn) as (h0 & later & Hnamed & Hout).
    exists (appendItems h0 (itemsOf later)), h0, later.
    split; [exact Hout|]. split; [exact Hnamed|done].
  - intros h Hh. rewrite merged_hosts in Hh.
    apply elem_of_values in Hh as [k Hk].
    pose proof (run_names _ _ _ Hk) as Hname.
    rewrite run_lookup in Hk. unfold mergedEntry in Hk.
    rewrite Hname.
    destruct (named k (hostsOf docs)) as [|h0 later]; [done|].
    injection Hk as <-. by exists h0, later.
  - intros acc host Hnew.
    by rewrite (processHost_new _ _ Hnew), lookup_insert_eq.
  - intros acc host e Hex.
    rewrite (processHost_existing _ _ _ Hex), lookup_insert_eq.
    by eexists.
Qed.

(** C8.  The unique-host counter is the number of distinct host names of
    all inputs (a number that fits Go's [int], the accumulator holding one
    entry for each), and the unique-host and the merged-host counter
    together do not exceed the number of host occurrences. *)
Theorem counter_relations files docs :
  parses files docs →
  (Z.of_nat (distinctNames (hostsOf docs)) ≤ int_max)%Z →
  ∃ st, loop files = inr st ∧
        uniqueHosts st = Z.of_nat (distinctNames (hostsOf docs)) ∧
        (uniqueHosts st + mergedHosts st
         ≤ Z.of_nat (length (hostsOf docs)))%Z.
Proof.
  intros Hp Hfit. eexists. split; [by apply mergeLoop_parsed|].
  split; [by apply final_uniqueHosts|apply final_counters_sum].
Qed.

Lemma parsed_elem files docs file :
  parses files docs → file ∈ files →
  ∃ d, parseNessusFile file = inr d.
Proof.
  intros Hp. induction Hp as [|f d files docs Hd _ IH]; intros Hin.
  - by apply elem_of_nil in Hin.
  - apply elem_of_cons in Hin as [->|Hin]; eauto.
Qed.

(** C6.  Fail-fast: if some input file does not parse, then the first such
    file ends the run.  Counting and merging both return an error that
    names this file, and the pipeline prints it and hands no bytes to the
    writer; the files before it are not merged into any output. *)
Theorem parse_failure_aborts inputDir files total :
  (∃ file err, file ∈ files ∧ parseNessusFile file = inl err) →
  ∃ pre bad post docs err,
    files = pre ++ bad :: post ∧
    parses pre docs ∧
    parseNessusFile bad = inl err ∧
    countTotalHosts parseNessusFile files = inl (parseErrorf bad err) ∧
    mergeFiles files total = inl (parseErrorf bad err) ∧
    mergePipeline EscapeString parseNessusFile rangeMap inputDir files
    = inl ("Error counting hosts: " +:+ parseErrorf bad err +:+ nl) ∧
    occursIn bad (parseErrorf bad err).
Proof.
  intros (file & err0 & Hin & Herr0).
  destruct (parsed_or_failure parseNessusFile files)
    as [[docs Hp]|(pre & bad & post & docs & err & -> & Hp & Hbad)].
  { destruct (parsed_elem _ _ _ Hp Hin) as [d Hd]. congruence. }
  exists pre, bad, post, docs, err.
  assert (countTotalHosts parseNessusFile (pre ++ bad :: post)
          = inl (parseErrorf bad err)) as Hcount
    by (by eapply countFrom_failure).
  assert (mergeLoop parseNessusFile (pre ++ bad :: post)
          = inl (parseErrorf bad err)) as Hloop
    by (by eapply mergeFrom_failure).
  repeat split; try done.
  - unfold mergeNessusFiles. by rewrite Hloop.
  - unfold mergePipeline. rewrite Hcount.
    destruct (decide _) as [Hlen|]; [|done].
    unfold len in Hlen. rewrite length_app in Hlen. simpl in Hlen. lia.
  - exists "error parsing ", (": " +:+ err). reflexivity.
Qed.

(** C7, as the code has it.  Merging a single input file whose host names
    are pairwise distinct reproduces its hosts, in some order, each with
    the findings it had: the host count and the finding count are those of
    the input. *)
Theorem single_file_distinct_hosts file d :
  parseNessusFile file = inr d →
  NoDup (hostNames (docHosts d)) →
  ∃ st, loop [file] = inr st ∧
        docHosts (merged st) ≡ₚ docHosts d ∧
        length (docHosts (merged st)) = length (docHosts d) ∧
        findingCount (docHosts (merged st)) = findingCount (docHosts d).
Proof.
  intros Hd Hnd.
  assert (parses [file] [d]) as Hp by (by repeat constructor).
  eexists. split; [by apply mergeLoop_parsed|].
  assert (hostsOf [d] = docHosts d) as Hhs
    by (by rewrite hostsOf_cons, app_nil_r).
  assert (docHosts
            (merged
               (withPolicy (firstPolicy [d])
                  (foldl processHost initState (hostsOf [d]))))
          ≡ₚ docHosts d) as Hperm.
  { rewrite merged_hosts, Hhs. by apply run_distinct. }
  split; [done|]. split; [by apply Permutation_length|].
  rewrite <- !length_findingsOf. apply Permutation_length.
  by rewrite Hperm.
Qed.

(** The text that the serializer writes for the hosts of the merged
    document occurs in the bytes returned. *)
Lemma output_host_text files docs total h (g : ReportHost → string) :
  parses files docs →
  (∀ q, occursIn (g h) (buf (marshalReportHost EscapeString q h))) →
  h ∈ docHosts
        (merged
           (withPolicy (firstPolicy docs)
              (foldl processHost initState (hostsOf docs)))) →
  ∃ out, mergeFiles files total = inr out ∧ occursIn (g h) out.
Proof.
  intros Hp Hg Hh. eexists. split; [by apply mergeNessusFiles_parsed|].
  apply occursIn_app_r, marshalNessusClientData_report. intros q.
  by apply marshalReport_host.
Qed.

(** C9.  The bytes returned for input documents that parse: the header of
    an XML document followed by the serialized merged document, whose
    report is named Merged Nessus Report.  The Policy content of the first
    document, the HostProperties content of the first occurrence of every
    host name and the body of every finding of every input occur in these
    bytes as they were parsed, inside their element. *)
Theorem serialized_output files docs total :
  parses files docs →
  ∃ st out,
    loop files = inr st ∧
    mergeFiles files total = inr out ∧
    out = xml_Header +:+
          buf (marshalNessusClientData EscapeString (merged st) newPrinter) ∧
    startsWith xml_Header out ∧
    Report_Name (NessusClientData_Report (merged st))
    = "Merged Nessus Report" ∧
    occursIn ("<Report name=" +:+ dquote +:+
              EscapeString "Merged Nessus Report" +:+ dquote +:+ ">") out ∧
    occursIn ("<Policy>" +:+ Policy_Content (firstPolicy docs) +:+
              "</Policy>") out ∧
    (∀ h0 later,
        named (ReportHost_Name h0) (hostsOf docs) = h0 :: later →
        occursIn ("<HostProperties>" +:+
                  HostProperties_Content (ReportHost_HostProperties h0) +:+
                  "</HostProperties>") out) ∧
    (∀ h it,
        h ∈ hostsOf docs → it ∈ ReportHost_ReportItems h →
        occursIn (">" +:+ ReportItem_Content it +:+ "</ReportItem>") out).
Proof.
  intros Hp. eexists _, _.
  split; [by apply mergeLoop_parsed|].
  split; [by apply mergeNessusFiles_parsed|].
  split; [done|]. split; [by eexists|]. split; [done|].
  split; [|split; [|split]].
  - apply occursIn_app_r, marshalNessusClientData_report. intros q.
    exact (marshalReport_name EscapeString
             (NessusClientData_Report
                (merged (withPolicy (firstPolicy docs) _))) q).
  - apply occursIn_app_r.
    exact (marshalNessusClientData_policy EscapeString
             (merged (withPolicy (firstPolicy docs) _)) newPrinter).
  - intros h0 later Hnamed.
    assert (ReportHost_Name h0 ∈ hostNames (hostsOf docs)) as Hn.
    { destruct (decide (ReportHost_Name h0 ∈ hostNames (hostsOf docs)))
        as [|Hn]; [done|].
      apply named_nil in Hn. congruence. }
    destruct (merged_entry docs _ Hn) as (h0' & later' & Hnamed' & Hout).
    rewrite Hnamed in Hnamed'. injection Hnamed' as <- <-.
    destruct (output_host_text files docs total
                (appendItems h0 (itemsOf later))
                (λ h, "<HostProperties>" +:+
                      HostProperties_Content (ReportHost_HostProperties h)
                      +:+ "</HostProperties>") Hp)
      as (out & Hout' & Hocc).
    + intros q. apply marshalReportHost_properties.
    + eapply (list_elem_of_filter _ _ _). unfold named in Hout.
      rewrite Hout. left.
    + rewrite (mergeNessusFiles_parsed _ _ _ Hp) in Hout'.
      injection Hout' as <-. exact Hocc.
  - intros h it Hh Hit.
    assert (ReportHost_Name h ∈ hostNames (hostsOf docs)) as Hn
      by (by apply list_elem_of_fmap_2).
    destruct (merged_entry docs _ Hn) as (h0 & later & Hnamed & Hout).
    assert (it ∈ ReportHost_ReportItems (appendItems h0 (itemsOf later)))
      as Hit'.
    { change (ReportHost_ReportItems (appendItems h0 (itemsOf later)))
        with (ReportHost_ReportItems h0 ++ itemsOf later).
      rewrite <- itemsOf_singleton, <- itemsOf_app.
      change ([h0] ++ later) with (h0 :: later). rewrite <- Hnamed.
      apply list_elem_of_bind. exists h. split; [done|].
      by apply list_elem_of_filter. }
    destruct (output_host_text files docs total
                (appendItems h0 (itemsOf later))
                (λ _, ">" +:+ ReportItem_Content it +:+ "</ReportItem>") Hp)
      as (out & Hout' & Hocc).
    + intros q. by apply marshalReportHost_item.
    + eapply (list_elem_of_filter _ _ _). unfold named in Hout.
      rewrite Hout. left.
    + rewrite (mergeNessusFiles_parsed _ _ _ Hp) in Hout'.
      injection Hout' as <-. exact Hocc.
Qed.


End Merge.

(** * The properties on the example reports *)

Lemma conservation_example :
  ∃ st, mergeLoop Examples.directory ["a.nessus"; "b.nessus"] = inr st ∧
        findingsOf (docHosts (buildMergedData Examples.keyOrder st))
        ≡ₚ findingsOf (hostsOf [Examples.docA; Examples.docB]) ∧
        findingCount (docHosts (buildMergedData Examples.keyOrder st))
        = findingCount (hostsOf [Examples.docA; Examples.docB]).
Proof.
  apply (conservation Examples.directory Examples.keyOrder).
  - intros m. reflexivity.
  - repeat constructor.
Defined.

Lemma host_identity_merge_example :
  ∃ st h,
    mergeLoop Examples.directory ["a.nessus"; "b.nessus"] = inr st ∧
    named "10.0.0.1" (docHosts (buildMergedData Examples.keyOrder st)) = [h] ∧
    ReportHost_ReportItems h
    = [Examples.docA; Examples.docB]
        ≫= (λ d, itemsOf (named "10.0.0.1" (docHosts d))) ∧
    length (ReportHost_ReportItems h)
    = sum_list_with (λ d, findingCount (named "10.0.0.1" (docHosts d)))
        [Examples.docA; Examples.docB].
Proof.
  apply (host_identity_merge Examples.directory Examples.keyOrder).
  - intros m. reflexivity.
  - repeat constructor.
  - vm_compute. repeat constructor.
Defined.

Lemma merge_counters_example :
  ∃ st,
    mergeLoop Examples.directory ["a.nessus"; "b.nessus"; "c.nessus"]
    = inr st ∧
    mergedHosts st
    = Z.of_nat
        (length (hostsOf [Examples.docA; Examples.docB; Examples.docC])
         - distinctNames (hostsOf [Examples.docA; Examples.docB; Examples.docC]))
    ∧
    totalFindings st
    = Z.of_nat
        (findingCount (hostsOf [Examples.docA; Examples.docB; Examples.docC])).
Proof.
  apply (merge_counters Examples.directory).
  - repeat constructor.
  - vm_compute. discriminate.
  - vm_compute. discriminate.
Defined.

(** A host name seen in three reports is one name seen more than once, and
    the merged-hosts counter stands at two: the counter of C3 counts
    occurrences, not names. *)
Lemma merged_counter_example :
  ∃ st,
    mergeLoop Examples.directory ["a.nessus"; "b.nessus"; "c.nessus"]
    = inr st ∧
    parsed Examples.directory ["a.nessus"; "b.nessus"; "c.nessus"]
      [Examples.docA; Examples.docB; Examples.docC] ∧
    repeatedNames (hostsOf [Examples.docA; Examples.docB; Examples.docC]) = 1 ∧
    mergedHosts st = 2%Z ∧
    mergedHosts st
    ≠ Z.of_nat
        (repeatedNames (hostsOf [Examples.docA; Examples.docB; Examples.docC])).
Proof.
  eexists. split; [vm_compute; reflexivity|].
  split; [repeat constructor|].
  split; [vm_compute; reflexivity|].
  split; [vm_compute; reflexivity|].
  vm_compute. discriminate.
Qed.

Lemma policy_of_first_document_example :
  ∃ st,
    mergeLoop Examples.directory ["a.nessus"; "b.nessus"] = inr st ∧
    NessusClientData_Policy (buildMergedData Examples.keyOrder st)
    = NessusClientData_Policy Examples.docA ∧
    ∀ files' docs' total',
      parsed Examples.directory files' (Examples.docA :: docs') →
      docHosts <$> docs' = docHosts <$> [Examples.docB] →
      mergeNessusFiles Examples.plainEscape Examples.directory
        Examples.keyOrder files' total'
      = mergeNessusFiles Examples.plainEscape Examples.directory
          Examples.keyOrder ["a.nessus"; "b.nessus"] 3.
Proof.
  apply (policy_of_first_document Examples.plainEscape Examples.directory
           Examples.keyOrder ["a.nessus"; "b.nessus"] Examples.docA
           [Examples.docB] 3%Z).
  repeat constructor.
Defined.

Lemma first_properties_win_example :
  ∃ st,
    mergeLoop Examples.directory ["a.nessus"; "b.nessus"] = inr st ∧
    (∀ n, n ∈ hostNames (hostsOf [Examples.docA; Examples.docB]) →
          ∃ h h0 later,
            named n (docHosts (buildMergedData Examples.keyOrder st)) = [h] ∧
            named n (hostsOf [Examples.docA; Examples.docB]) = h0 :: later ∧
            ReportHost_HostProperties h = ReportHost_HostProperties h0) ∧
    (∀ h, h ∈ docHosts (buildMergedData Examples.keyOrder st) →
          ∃ h0 later,
            named (ReportHost_Name h) (hostsOf [Examples.docA; Examples.docB])
            = h0 :: later ∧
            ReportHost_HostProperties h = ReportHost_HostProperties h0) ∧
    (∀ acc host,
        hostMap acc !! ReportHost_Name host = None →
        hostMap (processHost acc host) !! ReportHost_Name host = Some host) ∧
    (∀ acc host existingHost,
        hostMap acc !! ReportHost_Name host = Some existingHost →
        ∃ e, hostMap (processHost acc host) !! ReportHost_Name host = Some e ∧
             ReportHost_HostProperties e
             = ReportHost_HostProperties existingHost).
Proof.
  apply (first_properties_win Examples.directory Examples.keyOrder).
  - intros m. reflexivity.
  - repeat constructor.
Defined.

Lemma parse_failure_aborts_example :
  ∃ pre bad post docs err,
    ["a.nessus"; "broken.nessus"; "b.nessus"] = pre ++ bad :: post ∧
    parsed Examples.directory pre docs ∧
    Examples.directory bad = inl err ∧
    countTotalHosts Examples.directory
      ["a.nessus"; "broken.nessus"; "b.nessus"]
    = inl (parseErrorf bad err) ∧
    mergeNessusFiles Examples.plainEscape Examples.directory Examples.keyOrder
      ["a.nessus"; "broken.nessus"; "b.nessus"] 3
    = inl (parseErrorf bad err) ∧
    mergePipeline Examples.plainEscape Examples.directory Examples.keyOrder
      "scans" ["a.nessus"; "broken.nessus"; "b.nessus"]
    = inl ("Error counting hosts: " +:+ parseErrorf bad err +:+ nl) ∧
    occursIn bad (parseErrorf bad err).
Proof.
  apply (parse_failure_aborts Examples.plainEscape Examples.directory
           Examples.keyOrder "scans").
  exists "broken.nessus", "XML syntax error on line 1: unexpected EOF".
  split; [repeat constructor|reflexivity].
Defined.

Lemma single_file_distinct_hosts_example :
  ∃ st,
    mergeLoop Examples.directory ["a.nessus"] = inr st ∧
    docHosts (buildMergedData Examples.keyOrder st)
    ≡ₚ docHosts Examples.docA ∧
    length (docHosts (buildMergedData Examples.keyOrder st))
    = length (docHosts Examples.docA) ∧
    findingCount (docHosts (buildMergedData Examples.keyOrder st))
    = findingCount (docHosts Examples.docA).
Proof.
  apply (single_file_distinct_hosts Examples.directory Examples.keyOrder).
  - intros m. reflexivity.
  - reflexivity.
  - vm_compute. repeat constructor; compute_done.
Defined.

(** A single report that lists a host name twice goes in with three hosts
    and comes out with two: the single-file case of C7 needs distinct host
    names. *)
Lemma single_file_host_count_example :
  ∃ st,
    mergeLoop Examples.directory ["twice.nessus"] = inr st ∧
    Examples.directory "twice.nessus" = inr Examples.docTwice ∧
    length (docHosts Examples.docTwice) = 3 ∧
    length (docHosts (buildMergedData Examples.keyOrder st)) = 2 ∧
    ¬ docHosts (buildMergedData Examples.keyOrder st)
      ≡ₚ docHosts Examples.docTwice.
Proof.
  eexists. split; [vm_compute; reflexivity|].
  split; [reflexivity|]. split; [reflexivity|].
  split; [vm_compute; reflexivity|].
  intros Hperm. apply Permutation_length in Hperm.
  vm_compute in Hperm. discriminate.
Qed.

Lemma counter_relations_example :
  ∃ st,
    mergeLoop Examples.directory ["a.nessus"; "b.nessus"; "c.nessus"]
    = inr st ∧
    uniqueHosts st
    = Z.of_nat
        (distinctNames (hostsOf [Examples.docA; Examples.docB; Examples.docC]))
    ∧
    (uniqueHosts st + mergedHosts st
     ≤ Z.of_nat
         (length (hostsOf [Examples.docA; Examples.docB; Examples.docC])))%Z.
Proof.
  apply (counter_relations Examples.directory).
  - repeat constructor.
  - vm_compute. discriminate.
Defined.

Lemma serialized_output_example :
  ∃ st out,
    mergeLoop Examples.directory ["a.nessus"; "b.nessus"] = inr st ∧
    mergeNessusFiles Examples.plainEscape Examples.directory Examples.keyOrder
      ["a.nessus"; "b.nessus"] 3
    = inr out ∧
    out = xml_Header +:+
          buf (marshalNessusClientData Examples.plainEscape
                 (buildMergedData Examples.keyOrder st) newPrinter) ∧
    startsWith xml_Header out ∧
    Report_Name
      (NessusClientData_Report (buildMergedData Examples.keyOrder st))
    = "Merged Nessus Report" ∧
    occursIn ("<Report name=" +:+ dquote +:+
              Examples.plainEscape "Merged Nessus Report" +:+ dquote +:+ ">")
             out ∧
    occursIn ("<Policy>" +:+
              Policy_Content (firstPolicy [Examples.docA; Examples.docB]) +:+
              "</Policy>") out ∧
    (∀ h0 later,
        named (ReportHost_Name h0) (hostsOf [Examples.docA; Examples.docB])
        = h0 :: later →
        occursIn ("<HostProperties>" +:+
                  HostProperties_Content (ReportHost_HostProperties h0) +:+
                  "</HostProperties>") out) ∧
    (∀ h it,
        h ∈ hostsOf [Examples.docA; Examples.docB] →
        it ∈ ReportHost_ReportItems h →
        occursIn (">" +:+ ReportItem_Content it +:+ "</ReportItem>") out).
Proof.
  apply (serialized_output Examples.plainEscape Examples.directory
           Examples.keyOrder).
  - intros m. reflexivity.
  - repeat constructor.
Defined.


(** * Further properties of the merge engine *)

Lemma int_add_comm a b : int_add a b = int_add b a.
Proof. unfold int_add. by rewrite Z.add_comm. Qed.

Lemma int_add_wrap_wrap a b : int_add (int_wrap a) (int_wrap b) = int_wrap (a + b).
Proof.
  rewrite int_add_wrap.
  replace (a + int_wrap b)%Z with (int_wrap b + a)%Z by lia.
  change (int_wrap (int_wrap b + a)) with (int_add (int_wrap b) a).
  rewrite int_add_wrap. f_equal. lia.
Qed.

Lemma distinctNames_Permutation hs hs' :
  hs ≡ₚ hs' → distinctNames hs = distinctNames hs'.
Proof.
  intros Hperm. unfold distinctNames, hostNames.
  apply Permutation_length, NoDup_Permutation;
    [apply NoDup_remove_dups..|].
  intros n. rewrite !elem_of_remove_dups. by rewrite Hperm.
Qed.

Lemma findingCount_Permutation hs hs' :
  hs ≡ₚ hs' → findingCount hs = findingCount hs'.
Proof.
  intros Hperm. rewrite <- !length_itemsOf.
  apply Permutation_length. by rewrite Hperm.
Qed.

#[global] Instance hostsOf_Permutation : Proper ((≡ₚ) ==> (≡ₚ)) hostsOf.
Proof. intros l k Hlk. unfold hostsOf. by rewrite Hlk. Qed.

(** The names of the hosts in the accumulator are its keys. *)
Lemma values_names (m : gmap string ReportHost) :
  (∀ k v, m !! k = Some v → ReportHost_Name v = k) →
  hostNames ((map_to_list m).*2) = (map_to_list m).*1.
Proof.
  intros Hnames. unfold hostNames.
  assert (Forall (λ kv : string * ReportHost, ReportHost_Name kv.2 = kv.1)
            (map_to_list m)) as Hall.
  { apply Forall_forall. intros [k v] Hkv. simpl.
    apply Hnames. by apply elem_of_map_to_list. }
  induction Hall as [|[k v] l Hkv _ IH]; [done|].
  rewrite !fmap_cons. cbn [fst snd] in *. by f_equal.
Qed.

Lemma named_values_None (m : gmap string ReportHost) n :
  (∀ k v, m !! k = Some v → ReportHost_Name v = k) →
  m !! n = None →
  named n ((map_to_list m).*2) = [].
Proof.
  intros Hnames Hn. apply named_nil.
  rewrite (values_names _ Hnames).
  intros ([k v] & -> & Hkv)%list_elem_of_fmap.
  apply elem_of_map_to_list in Hkv. simpl in Hn. congruence.
Qed.

(** An entry of the accumulator stays where it is; the inner loop only
    appends to it the findings of the later occurrences of its name. *)
Lemma processHost_keeps acc host k e :
  hostMap acc !! k = Some e →
  hostMap (processHost acc host) !! k
  = Some (appendItems e (itemsOf (named k [host]))).
Proof.
  intros He. rewrite named_cons.
  destruct (decide (ReportHost_Name host = k)) as [<-|Hne].
  - rewrite (processHost_existing _ _ _ He), lookup_insert_eq.
    by rewrite itemsOf_singleton.
  - rewrite processHost_lookup_ne, He by done.
    by rewrite appendItems_nil.
Qed.

Lemma foldl_processHost_keeps hs acc k e :
  hostMap acc !! k = Some e →
  hostMap (foldl processHost acc hs) !! k
  = Some (appendItems e (itemsOf (named k hs))).
Proof.
  revert acc e. induction hs as [|x hs IH]; intros acc e He.
  - simpl. by rewrite appendItems_nil.
  - simpl. rewrite (IH _ _ (processHost_keeps acc x k e He)).
    rewrite appendItems_appendItems, <- itemsOf_app, <- named_app. done.
Qed.

(** A name that the accumulator does not hold is entered by its first
    occurrence. *)
Lemma foldl_processHost_enters hs acc k :
  hostMap acc !! k = None →
  hostMap (foldl processHost acc hs) !! k = mergedEntry k hs.
Proof.
  revert acc. induction hs as [|x hs IH]; intros acc Hk; [done|].
  simpl. unfold mergedEntry. rewrite named_cons.
  destruct (decide (ReportHost_Name x = k)) as [<-|Hne].
  - apply foldl_processHost_keeps.
    by rewrite (processHost_new _ _ Hk), lookup_insert_eq.
  - apply IH. by rewrite processHost_lookup_ne.
Qed.

(** The accumulator after a further run depends on the state before it
    only through its entries. *)
Lemma foldl_processHost_hostMap hs acc acc' :
  hostMap acc = hostMap acc' →
  hostMap (foldl processHost acc hs) = hostMap (foldl processHost acc' hs).
Proof.
  intros Hsame. apply map_eq. intros k.
  destruct (hostMap acc !! k) as [e|] eqn:E.
  - rewrite (foldl_processHost_keeps _ _ _ _ E).
    rewrite Hsame in E. by rewrite (foldl_processHost_keeps _ _ _ _ E).
  - rewrite (foldl_processHost_enters _ _ _ E).
    rewrite Hsame in E. by rewrite (foldl_processHost_enters _ _ _ E).
Qed.

(** Running the inner loop over the entries of an accumulator, in any
    order, rebuilds that accumulator. *)
Lemma run_values hs merged :
  merged ≡ₚ (map_to_list (hostMap (foldl processHost initState hs))).*2 →
  hostMap (foldl processHost initState merged)
  = hostMap (foldl processHost initState hs).
Proof.
  intros Hperm. apply map_eq. intros n.
  rewrite (run_lookup merged). unfold mergedEntry.
  destruct (hostMap (foldl processHost initState hs) !! n) as [e|] eqn:E.
  - assert (named n merged = [e]) as ->; [|by rewrite appendItems_nil].
    apply Permutation_singleton_r. unfold named. rewrite Hperm.
    apply (named_values _ _ _ (run_names hs) E).
  - assert (named n merged = []) as ->; [|done].
    apply Permutation_nil_r.
    rewrite <- (named_values_None _ n (run_names hs) E).
    unfold named. by rewrite Hperm.
Qed.

Lemma buildMergedData_ext rangeMap st st' :
  basePolicy st = basePolicy st' →
  hostMap st = hostMap st' →
  buildMergedData rangeMap st = buildMergedData rangeMap st'.
Proof.
  destruct st, st'. unfold buildMergedData, collectHosts. simpl.
  by intros -> ->.
Qed.

Lemma parsed_app parse files docs files' docs' :
  parsed parse files docs → parsed parse files' docs' →
  parsed parse (files ++ files') (docs ++ docs').
Proof. apply Forall2_app. Qed.

Lemma hostsOf_app docs docs' : hostsOf (docs ++ docs') = hostsOf docs ++ hostsOf docs'.
Proof. apply bind_app. Qed.

(** An entry of the accumulator is never removed and never replaced: after
    any further hosts the name is still entered, with the same element
    name, host name and Properties, and with a finding list that is the old
    list followed by the findings of the further occurrences of the name,
    in order. *)
Theorem entries_only_grow acc hs k e :
  hostMap acc !! k = Some e →
  ∃ e',
    hostMap (foldl processHost acc hs) !! k = Some e' ∧
    ReportHost_XMLName e' = ReportHost_XMLName e ∧
    ReportHost_Name e' = ReportHost_Name e ∧
    ReportHost_HostProperties e' = ReportHost_HostProperties e ∧
    ReportHost_ReportItems e'
    = ReportHost_ReportItems e
      ++ (filter (λ h, ReportHost_Name h = k) hs ≫= ReportHost_ReportItems).
Proof.
  intros He. exists (appendItems e (itemsOf (named k hs))).
  split; [by apply foldl_processHost_keeps|done].
Qed.

Section MergeMore.

Variable EscapeString : string → string.
Variable parseNessusFile : string → error + NessusClientData.
Variable rangeMap : gmap string ReportHost → list (string * ReportHost).
Hypothesis rangeMap_entries : ∀ m, rangeMap m ≡ₚ map_to_list m.

Local Abbreviation loop := (mergeLoop parseNessusFile).
Local Abbreviation parses := (parsed parseNessusFile).
Local Abbreviation merged := (buildMergedData rangeMap).
Local Abbreviation mergeFiles :=
  (mergeNessusFiles EscapeString parseNessusFile rangeMap).
Local Abbreviation final docs :=
  (withPolicy (firstPolicy docs) (foldl processHost initState (hostsOf docs))).

Lemma final_hosts docs :
  docHosts (merged (final docs))
  ≡ₚ (map_to_list (hostMap (foldl processHost initState (hostsOf docs)))).*2.
Proof. exact (merged_hosts rangeMap rangeMap_entries docs). Qed.

Lemma final_hostNames docs :
  hostNames (docHosts (merged (final docs)))
  ≡ₚ (map_to_list (hostMap (foldl processHost initState (hostsOf docs)))).*1.
Proof.
  unfold hostNames at 1. rewrite final_hosts.
  by rewrite <- (values_names _ (run_names (hostsOf docs))).
Qed.

Lemma final_hostNames_elem docs n :
  n ∈ hostNames (docHosts (merged (final docs)))
  ↔ n ∈ hostNames (hostsOf docs).
Proof.
  rewrite final_hostNames, list_elem_of_fmap. split.
  - intros ([k v] & -> & Hkv). simpl.
    apply elem_of_map_to_list in Hkv. rewrite run_lookup in Hkv.
    destruct (decide (k ∈ hostNames (hostsOf docs))) as [|Hn]; [done|].
    apply mergedEntry_None in Hn. congruence.
  - intros Hn.
    destruct (mergedEntry n (hostsOf docs)) as [v|] eqn:E.
    + exists (n, v). split; [done|].
      apply elem_of_map_to_list. by rewrite run_lookup.
    + by apply mergedEntry_None in E.
Qed.

(** The findings that the merged document holds under a host name are the
    findings of the occurrences of that name. *)
Lemma final_items docs n :
  itemsOf (named n (docHosts (merged (final docs))))
  = itemsOf (named n (hostsOf docs)).
Proof.
  destruct (decide (n ∈ hostNames (hostsOf docs))) as [Hn|Hn].
  - destruct (merged_entry rangeMap rangeMap_entries docs n Hn)
      as (h0 & later & -> & ->).
    rewrite itemsOf_singleton.
    change (h0 :: later) with ([h0] ++ later).
    by rewrite itemsOf_app, itemsOf_singleton.
  - rewrite (proj2 (named_nil n (hostsOf docs)) Hn).
    rewrite <- final_hostNames_elem in Hn.
    by rewrite (proj2 (named_nil n _) Hn).
Qed.

(** The host names of the merged document are pairwise distinct and are the
    host names of the inputs; no two output hosts share a name. *)
Theorem output_host_names files docs :
  parses files docs →
  ∃ st, loop files = inr st ∧
        NoDup (hostNames (docHosts (merged st))) ∧
        (∀ n, n ∈ hostNames (docHosts (merged st))
              ↔ n ∈ hostNames (hostsOf docs)) ∧
        length (docHosts (merged st)) = distinctNames (hostsOf docs).
Proof.
  intros Hp. eexists. split; [by apply mergeLoop_parsed|].
  split; [|split].
  - rewrite final_hostNames. apply NoDup_fst_map_to_list.
  - apply final_hostNames_elem.
  - rewrite final_hosts, length_fmap, length_map_to_list. apply run_size.
Qed.

(** Every host processed is counted exactly once, as unique or as merged,
    and the number of hosts processed is the total that [countTotalHosts]
    announced for the progress bar (all in Go's [int] arithmetic). *)
Theorem counters_add_up files docs :
  parses files docs →
  ∃ st total,
    loop files = inr st ∧
    countTotalHosts parseNessusFile files = inr total ∧
    processedHosts st = total ∧
    int_add (uniqueHosts st) (mergedHosts st) = processedHosts st.
Proof.
  intros Hp. eexists _, _. split; [by apply mergeLoop_parsed|].
  destruct (run_counters (hostsOf docs)) as (Hproc & Hu & Hm & _).
  split; [|split].
  - unfold countTotalHosts.
    change 0%Z with (int_wrap 0). by apply countFrom_parsed.
  - cbn [withPolicy processedHosts]. by rewrite Hproc.
  - cbn [withPolicy processedHosts uniqueHosts mergedHosts].
    rewrite Hu, Hm, Hproc, int_add_wrap_wrap. f_equal. lia.
Qed.

(** The order in which the documents are processed does not change the
    four counters, the set of host names of the output, or which findings
    each output host holds; it can only change the order of the findings
    within a host and whose Properties the host carries. *)
Theorem counts_order_independent files docs files' docs' :
  parses files docs →
  parses files' docs' →
  docs ≡ₚ docs' →
  ∃ st st',
    loop files = inr st ∧ loop files' = inr st' ∧
    processedHosts st = processedHosts st' ∧
    uniqueHosts st = uniqueHosts st' ∧
    mergedHosts st = mergedHosts st' ∧
    totalFindings st = totalFindings st' ∧
    hostNames (docHosts (merged st)) ≡ₚ hostNames (docHosts (merged st')) ∧
    ∀ n, itemsOf (named n (docHosts (merged st)))
         ≡ₚ itemsOf (named n (docHosts (merged st'))).
Proof.
  intros Hp Hp' Hdocs. eexists _, _.
  split; [by apply mergeLoop_parsed|]. split; [by apply mergeLoop_parsed|].
  assert (hostsOf docs ≡ₚ hostsOf docs') as Hhs by (by rewrite Hdocs).
  destruct (run_counters (hostsOf docs)) as (Hproc & Hu & Hm & Ht).
  destruct (run_counters (hostsOf docs')) as (Hproc' & Hu' & Hm' & Ht').
  rewrite run_size in Hu, Hm, Hu', Hm'.
  cbn [withPolicy processedHosts uniqueHosts mergedHosts totalFindings].
  rewrite Hproc, Hu, Hm, Ht, Hproc', Hu', Hm', Ht'.
  rewrite !length_itemsOf.
  rewrite (Permutation_length Hhs), (distinctNames_Permutation _ _ Hhs),
    (findingCount_Permutation _ _ Hhs).
  repeat split; try done.
  - apply NoDup_Permutation.
    + rewrite final_hostNames. apply NoDup_fst_map_to_list.
    + rewrite final_hostNames. apply NoDup_fst_map_to_list.
    + intros n. rewrite !final_hostNames_elem.
      unfold hostNames. by rewrite Hhs.
  - intros n. rewrite !final_items. unfold named. by rewrite Hhs.
Qed.

(** Merging in batches: a document that holds the Policy and the hosts (in
    any order) of a merge of [files] stands for these files in a later
    merge.  Merging it together with further files ends with the same host
    map and the same Policy as merging all files at once.  The order in
    which the map is ranged over is not fixed and can differ from run to
    run, so the two merged documents have the same Policy, the same report
    name and the same hosts, with the same finding lists, up to the order
    of the hosts. *)
Theorem incremental_merge files d docs st fileM M rest docsR :
  parses files (d :: docs) →
  loop files = inr st →
  parseNessusFile fileM = inr M →
  NessusClientData_Policy M = basePolicy st →
  docHosts M ≡ₚ (map_to_list (hostMap st)).*2 →
  parses rest docsR →
  ∃ st1 st2,
    loop (fileM :: rest) = inr st1 ∧
    loop (files ++ rest) = inr st2 ∧
    hostMap st1 = hostMap st2 ∧
    basePolicy st1 = basePolicy st2 ∧
    ∀ order1 order2 : gmap string ReportHost → list (string * ReportHost),
      (∀ m, order1 m ≡ₚ map_to_list m) →
      (∀ m, order2 m ≡ₚ map_to_list m) →
      NessusClientData_Policy (buildMergedData order1 st1)
      = NessusClientData_Policy (buildMergedData order2 st2) ∧
      Report_Name (NessusClientData_Report (buildMergedData order1 st1))
      = Report_Name (NessusClientData_Report (buildMergedData order2 st2)) ∧
      docHosts (buildMergedData order1 st1)
      ≡ₚ docHosts (buildMergedData order2 st2).
Proof.
  intros Hp Hst HM Hpol Hhosts HpR.
  assert (st = final (d :: docs)) as ->
    by (rewrite (mergeLoop_parsed _ _ _ Hp) in Hst; congruence).
  assert (parses (fileM :: rest) (M :: docsR)) as HpM by (by constructor).
  pose proof (parsed_app _ _ _ _ _ Hp HpR) as Hall.
  exists (final (M :: docsR)), (final ((d :: docs) ++ docsR)).
  split; [by apply mergeLoop_parsed|].
  split; [by apply mergeLoop_parsed|].
  assert (hostMap (final (M :: docsR))
          = hostMap (final ((d :: docs) ++ docsR))) as Hmap.
  { cbn [withPolicy hostMap].
    rewrite hostsOf_app, (hostsOf_cons M), !foldl_app.
    apply foldl_processHost_hostMap, run_values. exact Hhosts. }
  split; [exact Hmap|]. split; [exact Hpol|].
  intros order1 order2 Ho1 Ho2.
  split; [exact Hpol|]. split; [done|].
  rewrite (merged_hosts order1 Ho1), (merged_hosts order2 Ho2).
  cbn [withPolicy hostMap] in Hmap. by rewrite Hmap.
Qed.

(** The pipeline hands bytes to the writer exactly when there is at least
    one file and every file parses; the bytes are those that
    [mergeNessusFiles] returns.  With no file at all nothing is parsed. *)
Theorem pipeline_success inputDir files :
  mergePipeline EscapeString parseNessusFile rangeMap inputDir []
  = inl ("No .nessus files found in directory: " +:+ inputDir +:+ nl) ∧
  (∀ docs total,
      files ≠ [] → parses files docs →
      mergePipeline EscapeString parseNessusFile rangeMap inputDir files
      = mergeFiles files total ∧
      ∃ out, mergeFiles files total = inr out) ∧
  (∀ out,
      mergePipeline EscapeString parseNessusFile rangeMap inputDir files
      = inr out →
      files ≠ [] ∧ ∃ docs, parses files docs).
Proof.
  split; [done|]. split.
  - intros docs total Hne Hp. unfold mergePipeline.
    destruct (decide (len files = 0%Z)) as [Hlen|_].
    { destruct files; [done|]. unfold len in Hlen. simpl in Hlen. lia. }
    unfold countTotalHosts. change 0%Z with (int_wrap 0).
    rewrite (countFrom_parsed _ _ _ _ Hp).
    rewrite !(mergeNessusFiles_parsed EscapeString _ rangeMap _ _ _ Hp).
    split; [done|by eexists].
  - intros out Hout. unfold mergePipeline in Hout.
    destruct (decide (len files = 0%Z)) as [|Hlen]; [done|].
    split; [by intros ->|].
    destruct (parsed_or_failure parseNessusFile files)
      as [Hdocs|(pre & bad & post & docs & err & -> & Hp & Hbad)]; [done|].
    unfold countTotalHosts in Hout.
    by rewrite (countFrom_failure _ _ _ _ _ _ _ Hp Hbad) in Hout.
Qed.

End MergeMore.

(** ** Attributes in the output *)





(** * Finding the report files *)

Lemma string_length_app a b :
  String.length (a +:+ b) = String.length a + String.length b.
Proof.
  induction a as [|x a IH]; [done|].
  cbv [String.append]. fold String.append. simpl. by rewrite IH.
Qed.

Lemma substring_all s : String.substring 0 (String.length s) s = s.
Proof. induction s as [|x s IH]; [done|]. simpl. by rewrite IH. Qed.

Lemma substring_app_r a b :
  String.substring (String.length a) (String.length b) (a +:+ b) = b.
Proof.
  induction a as [|x a IH]; [apply substring_all|].
  cbv [String.append]. fold String.append. simpl. apply IH.
Qed.

Lemma substring_split n s :
  n ≤ String.length s →
  String.substring 0 n s +:+ String.substring n (String.length s - n) s = s.
Proof.
  revert n. induction s as [|x s IH]; intros n Hn.
  - destruct n; [done|]. simpl in Hn. lia.
  - destruct n as [|n].
    + simpl. by rewrite substring_all.
    + simpl in *. cbv [String.append]. fold String.append.
      rewrite IH by lia. done.
Qed.

(** [HasSuffix s suffix] holds exactly when [s] ends in [suffix]. *)
Lemma HasSuffix_spec s suffix :
  HasSuffix s suffix = true ↔ ∃ stem, s = stem +:+ suffix.
Proof.
  unfold HasSuffix. rewrite andb_true_iff, !bool_decide_eq_true. split.
  - intros [Hlen Hsub].
    exists (String.substring 0 (String.length s - String.length suffix) s).
    pose proof (substring_split (String.length s - String.length suffix) s)
      as Hsplit.
    replace (String.length s - (String.length s - String.length suffix))
      with (String.length suffix) in Hsplit by lia.
    rewrite Hsub in Hsplit. symmetry. apply Hsplit. lia.
  - intros [stem ->]. rewrite string_length_app. split; [lia|].
    replace (String.length stem + String.length suffix
             - String.length suffix) with (String.length stem) by lia.
    apply substring_app_r.
Qed.

Section WalkFacts.

Variable ToLower : string → string.

Lemma isReport_spec info :
  isReport ToLower info = true
  ↔ FileInfo_IsDir info = false ∧
    ∃ stem, ToLower (FileInfo_Name info) = stem +:+ ".nessus".
Proof.
  unfold isReport. rewrite andb_true_iff, negb_true_iff, HasSuffix_spec.
  done.
Qed.

Lemma filepath_Walk_entries entries nessusFiles :
  filepath_Walk ToLower (entryVisit <$> entries) nessusFiles
  = (nessusFiles
     ++ (filter (λ e, isReport ToLower e.2 = true) entries).*1, None).
Proof.
  revert nessusFiles.
  induction entries as [|[path info] entries IH]; intros nessusFiles.
  - simpl. by rewrite app_nil_r.
  - rewrite fmap_cons, filter_cons. cbn [filepath_Walk entryVisit walkFn fst snd].
    fold (isReport ToLower info).
    destruct (isReport ToLower info) eqn:E.
    + rewrite decide_True by done. rewrite IH, fmap_cons, <- app_assoc. done.
    + rewrite decide_False by done. by rewrite IH.
Qed.

(** When the walk meets no error, [findNessusFiles] returns, in the order
    of the walk, the paths of exactly those entries that are not
    directories and whose lower-cased name ends in .nessus. *)
Theorem findNessusFiles_entries entries :
  ∃ files,
    findNessusFiles ToLower (entryVisit <$> entries) = (files, None) ∧
    files `sublist_of` entries.*1 ∧
    ∀ path,
      path ∈ files
      ↔ ∃ info, (path, info) ∈ entries ∧
                FileInfo_IsDir info = false ∧
                ∃ stem, ToLower (FileInfo_Name info) = stem +:+ ".nessus".
Proof.
  eexists. split; [apply filepath_Walk_entries|]. simpl.
  split; [apply fmap_sublist, sublist_filter; apply _|].
  intros path. rewrite list_elem_of_fmap. split.
  - intros ([p info] & -> & [Hrep Hin]%list_elem_of_filter).
    exists info. split; [done|]. by apply isReport_spec.
  - intros (info & Hin & Hspec). exists (path, info). split; [done|].
    apply list_elem_of_filter. split; [|done]. by apply isReport_spec.
Qed.

(** When the walk meets an error, [findNessusFiles] returns that error
    together with the paths found up to there; what the walk would have
    visited afterwards plays no part. *)
Theorem findNessusFiles_error entries path err later :
  ∃ files,
    findNessusFiles ToLower (entryVisit <$> entries) = (files, None) ∧
    findNessusFiles ToLower
      ((entryVisit <$> entries) ++ Broken path err :: later)
    = (files, Some err).
Proof.
  eexists. split; [apply filepath_Walk_entries|].
  unfold findNessusFiles. generalize (@nil string).
  induction entries as [|[p info] entries IH]; intros acc.
  - simpl. by rewrite app_nil_r.
  - rewrite fmap_cons, filter_cons.
    cbn [app filepath_Walk entryVisit walkFn fst snd].
    fold (isReport ToLower info).
    destruct (isReport ToLower info) eqn:E.
    + rewrite decide_True by done. rewrite IH, fmap_cons, <- app_assoc. done.
    + rewrite decide_False by done. by rewrite IH.
Qed.

End WalkFacts.

(** * The further properties on the example reports *)

Lemma entries_only_grow_example :
  ∃ e',
    hostMap
      (foldl processHost
         (foldl processHost initState (docHosts Examples.docA))
         (docHosts Examples.docB)) !! "10.0.0.1"
    = Some e' ∧
    ReportHost_XMLName e' = mk_xml_Name EmptyString "ReportHost" ∧
    ReportHost_Name e' = "10.0.0.1" ∧
    ReportHost_HostProperties e'
    = mk_HostProperties (mk_xml_Name EmptyString "HostProperties")
        "<tag>a1</tag>" ∧
    ReportHost_ReportItems e'
    = [Examples.finding "f1"; Examples.finding "f2"; Examples.finding "f3"]
      ++ [Examples.finding "f5"; Examples.finding "f6"].
Proof.
  apply (entries_only_grow
           (foldl processHost initState (docHosts Examples.docA))
           (docHosts Examples.docB) "10.0.0.1"
           (Examples.host "10.0.0.1" "<tag>a1</tag>"
              [Examples.finding "f1"; Examples.finding "f2";
               Examples.finding "f3"])).
  vm_compute. reflexivity.
Defined.

Lemma output_host_names_example :
  ∃ st,
    mergeLoop Examples.directory ["a.nessus"; "b.nessus"; "twice.nessus"]
    = inr st ∧
    NoDup (hostNames (docHosts (buildMergedData Examples.keyOrder st))) ∧
    (∀ n, n ∈ hostNames (docHosts (buildMergedData Examples.keyOrder st))
          ↔ n ∈ hostNames
                  (hostsOf [Examples.docA; Examples.docB; Examples.docTwice]))
    ∧
    length (docHosts (buildMergedData Examples.keyOrder st))
    = distinctNames
        (hostsOf [Examples.docA; Examples.docB; Examples.docTwice]).
Proof.
  apply (output_host_names Examples.directory Examples.keyOrder).
  - intros m. reflexivity.
  - repeat constructor.
Defined.

Lemma counters_add_up_example :
  ∃ st total,
    mergeLoop Examples.directory ["a.nessus"; "b.nessus"; "twice.nessus"]
    = inr st ∧
    countTotalHosts Examples.directory
      ["a.nessus"; "b.nessus"; "twice.nessus"] = inr total ∧
    processedHosts st = total ∧
    int_add (uniqueHosts st) (mergedHosts st) = processedHosts st.
Proof.
  apply (counters_add_up Examples.directory
           ["a.nessus"; "b.nessus"; "twice.nessus"]
           [Examples.docA; Examples.docB; Examples.docTwice]).
  repeat constructor.
Defined.

Lemma counts_order_independent_example :
  ∃ st st',
    mergeLoop Examples.directory ["a.nessus"; "b.nessus"] = inr st ∧
    mergeLoop Examples.directory ["b.nessus"; "a.nessus"] = inr st' ∧
    processedHosts st = processedHosts st' ∧
    uniqueHosts st = uniqueHosts st' ∧
    mergedHosts st = mergedHosts st' ∧
    totalFindings st = totalFindings st' ∧
    hostNames (docHosts (buildMergedData Examples.keyOrder st))
    ≡ₚ hostNames (docHosts (buildMergedData Examples.keyOrder st')) ∧
    ∀ n, itemsOf (named n (docHosts (buildMergedData Examples.keyOrder st)))
         ≡ₚ itemsOf
              (named n (docHosts (buildMergedData Examples.keyOrder st'))).
Proof.
  apply (counts_order_independent Examples.directory Examples.keyOrder
           (λ m, reflexivity (map_to_list m))
           ["a.nessus"; "b.nessus"] [Examples.docA; Examples.docB]
           ["b.nessus"; "a.nessus"] [Examples.docB; Examples.docA]).
  - repeat constructor.
  - repeat constructor.
  - apply Permutation_swap.
Defined.

Lemma incremental_merge_example :
  ∃ st1 st2,
    mergeLoop Batches.directory ["merged.nessus"; "c.nessus"] = inr st1 ∧
    mergeLoop Batches.directory (["a.nessus"; "b.nessus"] ++ ["c.nessus"])
    = inr st2 ∧
    hostMap st1 = hostMap st2 ∧
    basePolicy st1 = basePolicy st2 ∧
    ∀ order1 order2 : gmap string ReportHost → list (string * ReportHost),
      (∀ m, order1 m ≡ₚ map_to_list m) →
      (∀ m, order2 m ≡ₚ map_to_list m) →
      NessusClientData_Policy (buildMergedData order1 st1)
      = NessusClientData_Policy (buildMergedData order2 st2) ∧
      Report_Name (NessusClientData_Report (buildMergedData order1 st1))
      = Report_Name (NessusClientData_Report (buildMergedData order2 st2)) ∧
      docHosts (buildMergedData order1 st1)
      ≡ₚ docHosts (buildMergedData order2 st2).
Proof.
  eapply (incremental_merge Batches.directory
            ["a.nessus"; "b.nessus"] Examples.docA [Examples.docB] _
            "merged.nessus" Batches.docMerged ["c.nessus"] [Examples.docC]).
  - repeat constructor.
  - vm_compute. reflexivity.
  - reflexivity.
  - reflexivity.
  - vm_compute. reflexivity.
  - repeat constructor.
Defined.


(** * Runs of the program *)

Section RunFacts.

Context {W : Type} (os : IO.handler W).

Lemma run_bind {A B : Type} (m : IO.io A) (f : A → IO.io B) w :
  IO.run os (IO.bind m f) w
  = match IO.value (IO.run os m w) with
    | inl code => (IO.trace (IO.run os m w), inl code, IO.world (IO.run os m w))
    | inr a =>
        (IO.trace (IO.run os m w)
         ++ IO.trace (IO.run os (f a) (IO.world (IO.run os m w))),
         IO.value (IO.run os (f a) (IO.world (IO.run os m w))),
         IO.world (IO.run os (f a) (IO.world (IO.run os m w))))
    end.
Proof.
  revert w. induction m as [a|code|c k IH]; intros w.
  - simpl. by destruct (IO.run os (f a) w) as [[t v] w'].
  - done.
  - simpl. destruct (os c w) as [a w1]. rewrite IH.
    destruct (IO.run os (k a) w1) as [[t [code|x]] w2]; simpl; [done|].
    by destruct (IO.run os (f x) w2) as [[t' v'] w'].
Qed.

Lemma run_Do {R : Type} c (k : IO.result c → IO.io R) w :
  IO.run os (IO.Do c k) w
  = (ev c (os c w).1 :: IO.trace (IO.run os (k (os c w).1) (os c w).2),
     IO.value (IO.run os (k (os c w).1) (os c w).2),
     IO.world (IO.run os (k (os c w).1) (os c w).2)).
Proof.
  simpl. destruct (os c w) as [a w1]. simpl.
  by destruct (IO.run os (k a) w1) as [[t v] w2].
Qed.

Lemma run_eta {R : Type} (m : IO.io R) w :
  IO.run os m w
  = (IO.trace (IO.run os m w), IO.value (IO.run os m w),
     IO.world (IO.run os m w)).
Proof. by destruct (IO.run os m w) as [[t v] w']. Qed.

End RunFacts.

#[global] Instance call_eq_dec : EqDecision IO.call.
Proof. solve_decision. Defined.

(** Two events of the same call are equal only with the same answer. *)
Lemma ev_inj c (a b : IO.result c) : ev c a = ev c b → a = b.
Proof.
  unfold ev. apply inj_pair2_eq_dec. intros x y.
  destruct (decide (x = y)); [by left|by right].
Qed.

Lemma ev_call c c' (a : IO.result c) (b : IO.result c') :
  ev c a = ev c' b → c = c'.
Proof. intros Heq. exact (f_equal (@projT1 _ _) Heq). Qed.

Section FileFacts.

Context {W : Type} (os : IO.handler W).
Variable filepath_Dir : string → string.
Variable xml_Unmarshal : string → error + NessusClientData.

Lemma parseNessusFile_run name w :
  match (os (IO.os_Open name) w).1 with
  | inl err =>
      IO.run os (IO.parseNessusFile xml_Unmarshal name) w
      = ([ev (IO.os_Open name) (inl err)], inr (inl err),
         (os (IO.os_Open name) w).2)
  | inr file =>
      let w1 := (os (IO.os_Open name) w).2 in
      let read := (os (IO.io_ReadAll file) w1).1 in
      let w2 := (os (IO.io_ReadAll file) w1).2 in
      IO.run os (IO.parseNessusFile xml_Unmarshal name) w
      = ([ev (IO.os_Open name) (inr file);
          ev (IO.io_ReadAll file) read;
          ev (IO.file_Close file) (os (IO.file_Close file) w2).1],
         inr match read with
             | inl err => inl err
             | inr content => xml_Unmarshal content
             end,
         (os (IO.file_Close file) w2).2)
  end.
Proof.
  unfold IO.parseNessusFile. rewrite run_Do.
  destruct (os (IO.os_Open name) w) as [[err|file] w1]; [done|].
  cbn [fst snd]. rewrite run_Do.
  destruct (os (IO.io_ReadAll file) w1) as [[err|content] w2]; cbn [fst snd].
  - unfold IO.deferred_Close. rewrite run_Do. done.
  - destruct (xml_Unmarshal content); unfold IO.deferred_Close;
      rewrite run_Do; done.
Qed.

(** [parseNessusFile] in every run: when the file cannot be opened, the
    error of [os.Open] is returned and nothing else is called; otherwise
    the file is read once and closed once, whether or not reading and
    decoding succeed, and the result is the error of the read, or else
    what [xml.Unmarshal] makes of the content.  No other call is made and
    what [Close] answers is not looked at. *)
Theorem parseNessusFile_contract name w :
  match (os (IO.os_Open name) w).1 with
  | inl err =>
      IO.run os (IO.parseNessusFile xml_Unmarshal name) w
      = ([ev (IO.os_Open name) (inl err)], inr (inl err),
         (os (IO.os_Open name) w).2)
  | inr file =>
      let w1 := (os (IO.os_Open name) w).2 in
      let read := (os (IO.io_ReadAll file) w1).1 in
      let w2 := (os (IO.io_ReadAll file) w1).2 in
      IO.run os (IO.parseNessusFile xml_Unmarshal name) w
      = ([ev (IO.os_Open name) (inr file);
          ev (IO.io_ReadAll file) read;
          ev (IO.file_Close file) (os (IO.file_Close file) w2).1],
         inr match read with
             | inl err => inl err
             | inr content => xml_Unmarshal content
             end,
         (os (IO.file_Close file) w2).2)
  end.
Proof. apply parseNessusFile_run. Qed.

Lemma saveMergedReport_run data filename w :
  let dir := filepath_Dir filename in
  let made :=
    if decide (dir ≠ ".") then [ev (IO.os_MkdirAll dir 493) None] else [] in
  let r := IO.run os (IO.saveMergedReport filepath_Dir data filename) w in
  ∃ v,
    IO.value r = inr v ∧
    fileState None (IO.trace r) = Some None ∧
    (∃ file,
        calls (IO.trace r)
        `prefix_of`
          calls made ++ [IO.os_Create filename; IO.file_Write file data;
                         IO.file_Close file]) ∧
    (v = None
     ↔ ∃ file n closed,
         IO.trace r
         = made ++ [ev (IO.os_Create filename) (inr file);
                    ev (IO.file_Write file data) (n, None);
                    ev (IO.file_Close file) closed]) ∧
    (dir ≠ "." →
     ∀ err, (os (IO.os_MkdirAll dir 493) w).1 = Some err →
            calls (IO.trace r) = [IO.os_MkdirAll dir 493] ∧ v = Some err).
Proof.
  intros dir made r. subst r. unfold IO.saveMergedReport. fold dir.
  set (create :=
    IO.Do (IO.os_Create filename) (λ created,
      match created with
      | inl err => IO.Return (Some err)
      | inr file =>
          IO.Do (IO.file_Write file data) (λ written,
            IO.deferred_Close file written.2)
      end)).
  assert (∀ w0, ∃ v,
    IO.value (IO.run os create w0) = inr v ∧
    fileState None (IO.trace (IO.run os create w0)) = Some None ∧
    (∃ file,
        calls (IO.trace (IO.run os create w0))
        `prefix_of`
          [IO.os_Create filename; IO.file_Write file data;
           IO.file_Close file]) ∧
    (v = None
     ↔ ∃ file n closed,
         IO.trace (IO.run os create w0)
         = [ev (IO.os_Create filename) (inr file);
            ev (IO.file_Write file data) (n, None);
            ev (IO.file_Close file) closed])) as Hcreate.
  { intros w0. subst create. rewrite run_Do.
    destruct (os (IO.os_Create filename) w0) as [[err|file] w1]; cbn [fst snd].
    - exists (Some err). split; [done|]. split; [done|]. split.
      + exists 1%positive. by eexists.
      + split; [done|]. intros (file & n & closed & Heq).
        apply (f_equal length) in Heq. done.
    - rewrite run_Do. unfold IO.deferred_Close. rewrite run_Do.
      destruct (os (IO.file_Write file data) w1) as [[n werr] w2].
      cbn [fst snd IO.trace IO.value IO.world IO.run].
      exists werr. split; [done|]. split.
      { cbn. rewrite !decide_True by done. done. }
      split; [exists file; by exists []|].
      split.
      + intros ->. by eexists file, n, _.
      + intros (file' & n' & closed & Heq).
        pose proof (f_equal (λ l : list IO.event, l !! 0) Heq) as Hc.
        pose proof (f_equal (λ l : list IO.event, l !! 1) Heq) as Hw.
        cbn in Hc, Hw. apply (inj Some) in Hc. apply (inj Some) in Hw.
        apply ev_inj in Hc. assert (file = file') as <- by congruence.
        apply ev_inj in Hw. congruence. }
  subst made.
  destruct (decide (dir ≠ ".")) as [Hdir|Hdir].
  - rewrite run_Do.
    destruct (os (IO.os_MkdirAll dir 493) w) as [[err|] w1]; cbn [fst snd].
    + exists (Some err). split; [done|]. split; [done|]. split.
      { exists 1%positive. by eexists. }
      split.
      * split; [done|]. intros (file & n & closed & Heq).
        apply (f_equal length) in Heq. done.
      * intros _ err' [= <-]. done.
    + destruct (Hcreate w1) as (v & Hv & Hstate & (file & Hpre) & Hnone).
      exists v. cbn [IO.trace IO.value fst snd].
      fold (IO.value (IO.run os create w1)).
      fold (IO.trace (IO.run os create w1)).
      split; [done|]. split; [done|]. split.
      { exists file. cbn. by apply prefix_cons. }
      split; [|by intros _ err [=]].
      rewrite Hnone. split.
      * intros (f & n & closed & ->). by exists f, n, closed.
      * intros (f & n & closed & Heq). exists f, n, closed.
        by apply (f_equal tail) in Heq.
  - destruct (Hcreate w) as (v & Hv & Hstate & Hpre & Hnone).
    exists v. done.
Qed.

(** [saveMergedReport] in every run.  It returns (it never exits).  It
    makes its calls in the order [MkdirAll] (only when the directory of the
    file name is not the current one; the mode is 0755), [Create], [Write]
    of the given bytes, [Close], and stops at the first of the first three
    that fails.  It returns no error exactly when all of them ran and none
    of the first three failed; what [Close] answers is dropped.  When
    [MkdirAll] fails nothing else is called, so the file is not created.  A
    file that was created is closed. *)
Theorem saveMergedReport_contract data filename w :
  let dir := filepath_Dir filename in
  let made :=
    if decide (dir ≠ ".") then [ev (IO.os_MkdirAll dir 493) None] else [] in
  let r := IO.run os (IO.saveMergedReport filepath_Dir data filename) w in
  ∃ v,
    IO.value r = inr v ∧
    fileState None (IO.trace r) = Some None ∧
    (∃ file,
        calls (IO.trace r)
        `prefix_of`
          calls made ++ [IO.os_Create filename; IO.file_Write file data;
                         IO.file_Close file]) ∧
    (v = None
     ↔ ∃ file n closed,
         IO.trace r
         = made ++ [ev (IO.os_Create filename) (inr file);
                    ev (IO.file_Write file data) (n, None);
                    ev (IO.file_Close file) closed]) ∧
    (dir ≠ "." →
     ∀ err, (os (IO.os_MkdirAll dir 493) w).1 = Some err →
            calls (IO.trace r) = [IO.os_MkdirAll dir 493] ∧ v = Some err).
Proof. apply saveMergedReport_run. Qed.

End FileFacts.

(** ** Properties of traces that pass from the parts to the whole *)

Lemma fileState_app held t1 t2 :
  fileState held (t1 ++ t2)
  = match fileState held t1 with
    | Some held' => fileState held' t2
    | None => None
    end.
Proof.
  revert held. induction t1 as [|e t1 IH]; intros held; [done|].
  simpl. by destruct (fileStep held e).
Qed.

Lemma filesClosed_app t1 t2 :
  filesClosed t1 → filesClosed t2 → filesClosed (t1 ++ t2).
Proof.
  unfold filesClosed. intros H1 H2. by rewrite fileState_app, H1.
Qed.

Lemma nothingWritten_app t1 t2 :
  nothingWritten t1 → nothingWritten t2 → nothingWritten (t1 ++ t2).
Proof.
  unfold nothingWritten, calls. rewrite fmap_app. apply Forall_app_2.
Qed.

Lemma opened_app t1 t2 : opened (t1 ++ t2) = opened t1 ++ opened t2.
Proof. unfold opened, calls. by rewrite fmap_app, omap_app. Qed.

Lemma calls_app t1 t2 : calls (t1 ++ t2) = calls t1 ++ calls t2.
Proof. apply fmap_app. Qed.

Lemma fileStep_console held c a :
  console c = true → fileStep held (ev c a) = Some held.
Proof. by destruct c. Qed.

Section Always.

Context {W : Type} (os : IO.handler W).
Variable Q : list IO.event → Prop.
Hypothesis Q_nil : Q [].
Hypothesis Q_app : ∀ t1 t2, Q t1 → Q t2 → Q (t1 ++ t2).

Lemma always_Return {R : Type} (r : R) : always os Q (IO.Return r).
Proof. intros w. exact Q_nil. Qed.

Lemma always_Exit {R : Type} code : always os Q (@IO.os_Exit R code).
Proof. intros w. exact Q_nil. Qed.

Lemma always_Do {R : Type} c (k : IO.result c → IO.io R) :
  (∀ a, Q [ev c a]) → (∀ a, always os Q (k a)) → always os Q (IO.Do c k).
Proof.
  intros Hc Hk w. rewrite run_Do. cbn [IO.trace fst snd].
  apply (Q_app [_]); [apply Hc|apply Hk].
Qed.

Lemma always_bind {A B : Type} (m : IO.io A) (f : A → IO.io B) :
  always os Q m → (∀ a, always os Q (f a)) → always os Q (IO.bind m f).
Proof.
  intros Hm Hf w. rewrite run_bind.
  pose proof (Hm w) as Hw.
  destruct (IO.value (IO.run os m w)) as [code|a]; [done|].
  cbn [IO.trace fst snd]. apply Q_app; [done|apply Hf].
Qed.

Lemma always_printAll {R : Type} texts (next : IO.io R) :
  (∀ text a, Q [ev (IO.fmt_Print text) a]) →
  always os Q next → always os Q (IO.printAll texts next).
Proof.
  intros Hprint Hnext. induction texts as [|text texts IH]; [done|].
  simpl. apply always_Do; [apply Hprint|done].
Qed.

Lemma always_fail {R : Type} text :
  (∀ text a, Q [ev (IO.fmt_Print text) a]) →
  always os Q (@IO.fail R text).
Proof.
  intros Hprint. unfold IO.fail.
  apply always_Do; [apply Hprint|]. intros _. apply always_Exit.
Qed.

End Always.

Lemma consoleOnly_app t1 t2 :
  consoleOnly t1 → consoleOnly t2 → consoleOnly (t1 ++ t2).
Proof.
  unfold consoleOnly, calls. rewrite fmap_app. apply Forall_app_2.
Qed.

Lemma consoleOnly_fileState held t :
  consoleOnly t → fileState held t = Some held.
Proof.
  unfold consoleOnly, calls. induction t as [|[c a] t IH]; [done|].
  rewrite fmap_cons, Forall_cons. intros [Hc Ht]. cbn [fileState].
  change (existT c a) with (ev c a).
  rewrite (fileStep_console held c a Hc). by apply IH.
Qed.

Lemma consoleOnly_nothingWritten t : consoleOnly t → nothingWritten t.
Proof.
  unfold consoleOnly, nothingWritten. intros Ht.
  eapply Forall_impl; [exact Ht|]. by intros [].
Qed.

Lemma consoleOnly_opened t : consoleOnly t → opened t = [].
Proof.
  unfold consoleOnly, opened. induction (calls t) as [|c l IH]; [done|].
  rewrite Forall_cons. intros [Hc Hl]. destruct c; try done; by apply IH.
Qed.

Lemma opened_console_cons c a t :
  console c = true → opened (ev c a :: t) = opened t.
Proof. by destruct c. Qed.

Lemma opened_walk_cons root a t :
  opened (ev (IO.walk_Dir root) a :: t) = opened t.
Proof. done. Qed.

Lemma consoleOnly_printed texts : consoleOnly (printed texts).
Proof.
  unfold consoleOnly, printed, calls. rewrite <- list_fmap_compose.
  by apply Forall_fmap, Forall_true.
Qed.

Lemma barUses_app t1 t2 : barUses (t1 ++ t2) = barUses t1 ++ barUses t2.
Proof. unfold barUses, calls. by rewrite fmap_app, omap_app. Qed.

Lemma barUses_printed texts : barUses (printed texts) = [].
Proof. by induction texts. Qed.

Lemma printed_last_one text :
  ∃ t text', printed [text] = t ++ printed [text'].
Proof. by exists [], text. Qed.

Lemma printed_last_app t1 t2 :
  (∃ t text, t2 = t ++ printed [text]) →
  ∃ t text, t1 ++ t2 = t ++ printed [text].
Proof. intros (t & text & ->). exists (t1 ++ t), text. apply app_assoc. Qed.

Lemma printed_last_cons e t2 :
  (∃ t text, t2 = t ++ printed [text]) →
  ∃ t text, e :: t2 = t ++ printed [text].
Proof. intros (t & text & ->). by exists (e :: t), text. Qed.

Ltac ends_printed :=
  repeat first [apply printed_last_one | apply printed_last_cons
               | apply printed_last_app].

Lemma ev_Print text (a : IO.result (IO.fmt_Print text)) :
  ev (IO.fmt_Print text) a = ev (IO.fmt_Print text) ().
Proof. cbn in a. by destruct a. Qed.

Section ProgramFacts.

Context {W : Type} (os : IO.handler W).
Variable ToLower : string → string.
Variable filepath_Dir : string → string.
Variable filepath_Base : string → string.
Variable xml_Unmarshal : string → error + NessusClientData.
Variable EscapeString : string → string.
Variable rangeMap : gmap string ReportHost → list (string * ReportHost).

Local Abbreviation parseFile := (IO.parseNessusFile xml_Unmarshal).
Local Abbreviation processAll := (IO.processHosts filepath_Base).
Local Abbreviation mergeAll :=
  (IO.mergeNessusFiles filepath_Base xml_Unmarshal EscapeString rangeMap).
Local Abbreviation save := (IO.saveMergedReport filepath_Dir).
Local Abbreviation program :=
  (IO.main ToLower filepath_Dir filepath_Base xml_Unmarshal EscapeString
           rangeMap).

Lemma run_printAll {R : Type} texts (next : IO.io R) w :
  ∃ w',
    IO.run os (IO.printAll texts next) w
    = (printed texts ++ IO.trace (IO.run os next w'),
       IO.value (IO.run os next w'), IO.world (IO.run os next w')).
Proof.
  revert w. induction texts as [|text texts IH]; intros w.
  - exists w. apply run_eta.
  - cbn [IO.printAll]. rewrite run_Do.
    destruct (IH (os (IO.fmt_Print text) w).2) as [w' ->].
    exists w'. cbn [IO.trace IO.value IO.world fst snd].
    by rewrite ev_Print.
Qed.

Lemma run_fail_trace {R : Type} text w :
  IO.trace (IO.run os (@IO.fail R text) w) = printed [text].
Proof. unfold IO.fail. rewrite run_Do. cbn. by rewrite ev_Print. Qed.

Lemma run_fail_value {R : Type} text w :
  IO.value (IO.run os (@IO.fail R text) w) = inl 1%Z.
Proof. unfold IO.fail. by rewrite run_Do. Qed.

(** *** [parseNessusFile] *)

Lemma parseFile_facts name w :
  let r := IO.run os (parseFile name) w in
  (∃ v, IO.value r = inr v) ∧
  filesClosed (IO.trace r) ∧ nothingWritten (IO.trace r) ∧
  opened (IO.trace r) = [name] ∧ barUses (IO.trace r) = [].
Proof.
  pose proof (parseNessusFile_run os xml_Unmarshal name w) as Hrun.
  destruct (os (IO.os_Open name) w).1 as [err|file].
  - cbv zeta. rewrite Hrun. split; [by eexists|]. split; [done|].
    split; [by repeat constructor|done].
  - cbv zeta in *. rewrite Hrun. split; [by eexists|].
    split; [|split; [by repeat constructor|done]].
    unfold filesClosed. cbn.
    by rewrite !decide_True by done.
Qed.

(** *** The inner loop *)

Lemma processHosts_facts file st hosts w :
  let r := IO.run os (processAll file st hosts) w in
  IO.value r = inr (foldl processHost st hosts) ∧
  consoleOnly (IO.trace r) ∧
  barUses (IO.trace r) = replicate (length hosts) (Advanced 1).
Proof.
  revert st w. induction hosts as [|host hosts IH]; intros st w.
  - by repeat split; try constructor.
  - cbv zeta. cbn [IO.processHosts]. rewrite !run_Do.
    cbn [IO.trace IO.value fst snd].
    destruct (IH (processHost st host)
                (os (IO.bar_Add 1)
                    (os (IO.bar_Describe
                           (IO.describeText filepath_Base file
                              (processHost st host))) w).2).2)
      as (Hv & Hc & Hb).
    split; [exact Hv|]. split.
    + unfold consoleOnly, calls. rewrite !fmap_cons.
      by repeat (apply Forall_cons; split; [done|]).
    + unfold barUses, calls. rewrite !fmap_cons. cbn [omap list_omap].
      cbn. f_equal. exact Hb.
Qed.

(** *** What holds of every part holds of the whole *)

Section Parts.

Variable Q : list IO.event → Prop.
Hypothesis Q_nil : Q [].
Hypothesis Q_app : ∀ t1 t2, Q t1 → Q t2 → Q (t1 ++ t2).
Hypothesis Q_parse : ∀ name, always os Q (parseFile name).

Lemma always_countFrom c files :
  always os Q (IO.countFrom xml_Unmarshal c files).
Proof.
  revert c. induction files as [|file files IH]; intros c.
  - by apply always_Return.
  - cbn [IO.countFrom]. apply always_bind; [done|apply Q_parse|].
    intros [err|data]; [by apply always_Return|apply IH].
Qed.

Hypothesis Q_console : ∀ c a, console c = true → Q [ev c a].

Lemma always_processHosts file st hosts :
  always os Q (processAll file st hosts).
Proof.
  revert st. induction hosts as [|host hosts IH]; intros st.
  - by apply always_Return.
  - cbn [IO.processHosts].
    apply always_Do; [done|by intros; apply Q_console|]. intros _.
    apply always_Do; [done|by intros; apply Q_console|]. intros _.
    apply IH.
Qed.

Lemma always_mergeFrom i files st :
  always os Q (IO.mergeFrom filepath_Base xml_Unmarshal i files st).
Proof.
  revert i st. induction files as [|file files IH]; intros i st.
  - by apply always_Return.
  - cbn [IO.mergeFrom]. apply always_bind; [done|apply Q_parse|].
    intros [err|data]; [by apply always_Return|].
    apply always_bind; [done|apply always_processHosts|]. intros st'.
    apply IH.
Qed.

Lemma always_mergeNessusFiles files totalHosts :
  always os Q (mergeAll files totalHosts).
Proof.
  unfold IO.mergeNessusFiles.
  apply always_Do; [done|by intros; apply Q_console|]. intros _.
  apply always_bind; [done|apply always_mergeFrom|].
  intros [err|st]; [by apply always_Return|].
  apply always_Do; [done|by intros; apply Q_console|]. intros _.
  destruct (xml_MarshalIndent _ _); [by apply always_Return|].
  apply always_printAll; [done|by intros; apply Q_console|].
  by apply always_Return.
Qed.

Hypothesis Q_walk : ∀ root a, Q [ev (IO.walk_Dir root) a].
Hypothesis Q_save : ∀ data filename, always os Q (save data filename).

Lemma always_main args : always os Q (program args).
Proof.
  assert (∀ text a, Q [ev (IO.fmt_Print text) a]) as Q_print
    by (by intros; apply Q_console).
  unfold IO.main. case_decide.
  { apply always_printAll; [done..|]. by apply always_Exit. }
  apply always_bind; [done| |].
  { apply always_Do; [done|apply Q_walk|]. intros visits.
    by apply always_Return. }
  intros [nessusFiles [err|]]; cbn [fst snd].
  { by apply always_fail. }
  case_decide; [by apply always_fail|].
  apply always_printAll; [done..|].
  apply always_bind; [done|apply always_countFrom|].
  intros [err|totalHosts]; [by apply always_fail|].
  apply always_Do; [done..|]. intros _.
  apply always_bind; [done|apply always_mergeNessusFiles|].
  intros [err|mergedData]; [by apply always_fail|].
  apply always_bind; [done|apply Q_save|].
  intros [err|]; [by apply always_fail|].
  apply always_Do; [done..|]. intros _. by apply always_Return.
Qed.

End Parts.

(** *** The two loops over the files *)

Lemma countFrom_facts files c w :
  let r := IO.run os (IO.countFrom xml_Unmarshal c files) w in
  (∃ v, IO.value r = inr v) ∧
  opened (IO.trace r) `prefix_of` files ∧
  (∀ total, IO.value r = inr (inr total) → opened (IO.trace r) = files).
Proof.
  revert c w. induction files as [|file files IH]; intros c w.
  - cbn. split; [by eexists|]. split; [done|done].
  - cbv zeta. cbn [IO.countFrom]. rewrite run_bind.
    destruct (parseFile_facts file w) as ([v Hv] & _ & _ & Ho & _).
    rewrite Hv. destruct v as [err|data].
    + cbn [IO.trace IO.value IO.run fst snd]. rewrite app_nil_r, Ho.
      split; [by eexists|]. split; [|done].
      by apply prefix_cons, prefix_nil.
    + cbn [IO.trace IO.value fst snd]. rewrite opened_app, Ho.
      edestruct IH as (Hr & Hp & He). split; [exact Hr|]. split.
      * apply prefix_cons, Hp.
      * intros total Ht. cbn. f_equal. by eapply He.
Qed.

Lemma mergeFrom_facts files i st w :
  let r :=
    IO.run os (IO.mergeFrom filepath_Base xml_Unmarshal i files st) w in
  (∃ v, IO.value r = inr v) ∧
  opened (IO.trace r) `prefix_of` files ∧
  (∀ st', IO.value r = inr (inr st') → opened (IO.trace r) = files).
Proof.
  revert i st w. induction files as [|file files IH]; intros i st w.
  - cbn. split; [by eexists|]. split; [done|done].
  - cbv zeta. cbn [IO.mergeFrom]. rewrite run_bind.
    destruct (parseFile_facts file w) as ([v Hv] & _ & _ & Ho & _).
    rewrite Hv. destruct v as [err|data].
    + cbn [IO.trace IO.value IO.run fst snd]. rewrite app_nil_r, Ho.
      split; [by eexists|]. split; [|done].
      by apply prefix_cons, prefix_nil.
    + cbn [IO.trace IO.value fst snd]. rewrite run_bind.
      edestruct processHosts_facts as (Hv' & Hc & _). rewrite Hv'.
      cbn [IO.trace IO.value fst snd].
      rewrite !opened_app, Ho, (consoleOnly_opened _ Hc).
      edestruct IH as (Hr & Hp & He). split; [exact Hr|]. split.
      * apply prefix_cons, Hp.
      * intros st' Ht. cbn. f_equal. by eapply He.
Qed.

Lemma mergeNessusFiles_facts files totalHosts w :
  let r := IO.run os (mergeAll files totalHosts) w in
  (∃ v, IO.value r = inr v) ∧
  opened (IO.trace r) `prefix_of` files ∧
  (∀ data, IO.value r = inr (inr data) → opened (IO.trace r) = files).
Proof.
  cbv zeta. unfold IO.mergeNessusFiles. rewrite run_Do, run_bind.
  edestruct mergeFrom_facts as ([v Hv] & Hp & He). rewrite Hv.
  destruct v as [err|st].
  - cbn [IO.trace IO.value IO.run fst snd].
    rewrite app_nil_r, opened_console_cons by done.
    split; [by eexists|]. split; [exact Hp|done].
  - cbn [IO.trace IO.value fst snd]. rewrite run_Do.
    cbn [IO.trace IO.value fst snd].
    rewrite opened_console_cons, opened_app, opened_console_cons by done.
    destruct (xml_MarshalIndent _ _) as [err|output].
    + cbn [IO.trace IO.value IO.run fst snd].
      change (opened []) with (@nil string). rewrite app_nil_r.
      split; [by eexists|]. split; [exact Hp|done].
    + edestruct (@run_printAll (error + string)) as [w' ->].
      cbn [IO.trace IO.value IO.run fst snd].
      rewrite (app_nil_r (printed _)).
      rewrite (consoleOnly_opened _ (consoleOnly_printed _)), app_nil_r.
      split; [by eexists|]. split; [exact Hp|]. intros _ _.
      by eapply He.
Qed.

(** *** The loops when the files do not change *)

Section Static.

Variable parse : string → error + NessusClientData.
Hypothesis files_static : static os xml_Unmarshal parse.

Lemma countFrom_static files c w :
  IO.value (IO.run os (IO.countFrom xml_Unmarshal c files) w)
  = inr (countFrom parse c files).
Proof.
  revert c w. induction files as [|file files IH]; intros c w; [done|].
  cbn [IO.countFrom countFrom]. rewrite run_bind, files_static.
  destruct (parse file) as [err|data]; [done|].
  cbn [IO.value fst snd]. apply IH.
Qed.

Lemma mergeFrom_static files i st w :
  IO.value (IO.run os (IO.mergeFrom filepath_Base xml_Unmarshal i files st) w)
  = inr (mergeFrom parse i files st).
Proof.
  revert i st w. induction files as [|file files IH]; intros i st w; [done|].
  cbn [IO.mergeFrom mergeFrom]. rewrite run_bind, files_static.
  destruct (parse file) as [err|data]; [done|].
  cbn [IO.value fst snd]. rewrite run_bind.
  edestruct processHosts_facts as (Hv & _ & _). rewrite Hv.
  cbn [IO.value fst snd]. apply IH.
Qed.

Lemma mergeNessusFiles_static files totalHosts w :
  IO.value (IO.run os (mergeAll files totalHosts) w)
  = inr (mergeNessusFiles EscapeString parse rangeMap files totalHosts).
Proof.
  unfold IO.mergeNessusFiles, mergeNessusFiles, mergeLoop.
  rewrite run_Do, run_bind, mergeFrom_static.
  destruct (mergeFrom parse 0 files initState) as [err|st]; [done|].
  cbn [IO.value fst snd]. rewrite run_Do. cbn [IO.value fst snd].
  destruct (xml_MarshalIndent _ _) as [err|output]; [done|].
  by edestruct (@run_printAll (error + string)) as [w' ->].
Qed.

Lemma mergeFrom_barUses files docs i st w :
  parsed parse files docs →
  barUses
    (IO.trace
       (IO.run os (IO.mergeFrom filepath_Base xml_Unmarshal i files st) w))
  = replicate (length (hostsOf docs)) (Advanced 1).
Proof.
  intros Hp. revert i st w.
  induction Hp as [|file d files docs Hd _ IH]; intros i st w; [done|].
  cbn [IO.mergeFrom]. rewrite run_bind.
  destruct (parseFile_facts file w) as (_ & _ & _ & _ & Hb).
  rewrite files_static, Hd. cbn [IO.trace fst snd]. rewrite run_bind.
  edestruct processHosts_facts as (Hv & _ & Hb'). rewrite Hv.
  cbn [IO.trace fst snd].
  rewrite !barUses_app, Hb, Hb', IH, hostsOf_cons, length_app.
  by rewrite replicate_add.
Qed.

End Static.

(** *** [saveMergedReport] and [main] *)

Lemma save_facts data filename w :
  let r := IO.run os (save data filename) w in
  (∃ v, IO.value r = inr v) ∧
  opened (IO.trace r) = [] ∧ barUses (IO.trace r) = [].
Proof.
  cbv zeta. unfold IO.saveMergedReport, IO.deferred_Close.
  case_decide.
  - rewrite run_Do. destruct (os (IO.os_MkdirAll _ _) w).1 as [err|].
    { split; [by eexists|done]. }
    rewrite run_Do. destruct (os (IO.os_Create _) _).1 as [err|file].
    { split; [by eexists|done]. }
    rewrite !run_Do. split; [by eexists|done].
  - rewrite run_Do. destruct (os (IO.os_Create _) _).1 as [err|file].
    { split; [by eexists|done]. }
    rewrite !run_Do. split; [by eexists|done].
Qed.

(** The run of [main] with at least one argument, part by part. *)
Lemma main_run args w :
  ¬ (len args < 2)%Z →
  let inputDir := default EmptyString (args !! 1) in
  let outputFile :=
    if decide (len args > 2)%Z then default EmptyString (args !! 2)
    else "merged_nessus_report.nessus" in
  let visits := (os (IO.walk_Dir inputDir) w).1 in
  let files := (findNessusFiles ToLower visits).1 in
  let r := IO.run os (program args) w in
  let walked := ev (IO.walk_Dir inputDir) visits in
  let listed :=
    printed
      (("Found " +:+ IO.fmt_d (len files) +:+ " .nessus files to merge:"
        +:+ nl)
       :: ((λ file, "  - " +:+ file +:+ nl) <$> files)
       ++ [nl +:+ "Scanning files for total host count..." +:+ nl]) in
  match (findNessusFiles ToLower visits).2 with
  | Some err =>
      IO.trace r
      = walked :: printed ["Error finding Nessus files: " +:+ err +:+ nl] ∧
      IO.value r = inl 1%Z
  | None =>
      if decide (len files = 0)%Z then
        IO.trace r
        = walked :: printed ["No .nessus files found in directory: " +:+
                             inputDir +:+ nl] ∧
        IO.value r = inl 1%Z
      else
        ∃ w1,
          let rc := IO.run os (IO.countTotalHosts xml_Unmarshal files) w1 in
          match IO.value rc with
          | inl _ => False
          | inr (inl err) =>
              IO.trace r
              = walked :: listed ++ IO.trace rc ++
                printed ["Error counting hosts: " +:+ err +:+ nl] ∧
              IO.value r = inl 1%Z
          | inr (inr totalHosts) =>
              ∃ w2,
                let rm := IO.run os (mergeAll files totalHosts) w2 in
                let scanned :=
                  walked :: listed ++ IO.trace rc ++
                  printed ["Total hosts to process: " +:+
                           IO.fmt_d totalHosts +:+ nl +:+ nl] in
                match IO.value rm with
                | inl _ => False
                | inr (inl err) =>
                    IO.trace r
                    = scanned ++ IO.trace rm ++
                      printed ["Error merging Nessus files: " +:+ err +:+ nl]
                    ∧ IO.value r = inl 1%Z
                | inr (inr mergedData) =>
                    ∃ w3,
                      let rs :=
                        IO.run os (save mergedData outputFile) w3 in
                      match IO.value rs with
                      | inl _ => False
                      | inr (Some err) =>
                          IO.trace r
                          = scanned ++ IO.trace rm ++ IO.trace rs ++
                            printed ["Error saving merged report: " +:+
                                     err +:+ nl]
                          ∧ IO.value r = inl 1%Z
                      | inr None =>
                          IO.trace r
                          = scanned ++ IO.trace rm ++ IO.trace rs ++
                            printed
                              [nl +:+ IO.checkMark +:+
                               " Successfully merged " +:+
                               IO.fmt_d (len files) +:+ " files into " +:+
                               outputFile +:+ nl]
                          ∧ IO.value r = inr ()
                      end
                end
          end
  end.
Proof.
  intros Hargs. cbv zeta. unfold IO.main.
  rewrite (decide_False (P := (len args < 2)%Z)) by done.
  unfold IO.findNessusFiles. cbn [IO.bind]. rewrite run_Do.
  cbn [IO.trace IO.value fst snd].
  set (inputDir := default EmptyString (args !! 1)).
  set (outputFile := if decide (len args > 2)%Z then _ else _).
  set (w0 := (os (IO.walk_Dir inputDir) w).2).
  destruct (findNessusFiles ToLower (os (IO.walk_Dir inputDir) w).1)
    as [files [err|]]; cbn [fst snd].
  { by rewrite run_fail_trace, run_fail_value. }
  case_decide.
  { by rewrite run_fail_trace, run_fail_value. }
  edestruct (@run_printAll unit) as [w1 ->].
  cbn [IO.trace IO.value fst snd]. exists w1.
  rewrite run_bind.
  destruct (countFrom_facts files 0 w1) as ([counted Hc] & _).
  unfold IO.countTotalHosts. rewrite Hc.
  destruct counted as [err|totalHosts]; cbn [IO.trace IO.value fst snd].
  { by rewrite run_fail_trace, run_fail_value. }
  rewrite run_Do. cbn [IO.trace IO.value fst snd]. rewrite (ev_Print _ (os _ _).1).
  set (w2 := (os (IO.fmt_Print _) _).2). exists w2. rewrite run_bind.
  destruct (mergeNessusFiles_facts files totalHosts w2) as ([merged Hm] & _).
  rewrite Hm.
  destruct merged as [err|mergedData]; cbn [IO.trace IO.value fst snd].
  { rewrite run_fail_trace, run_fail_value. split; [|done].
    by rewrite <- !app_comm_cons, <- !app_assoc. }
  set (w3 := IO.world (IO.run os (mergeAll files totalHosts) w2)).
  exists w3. rewrite run_bind.
  destruct (save_facts mergedData outputFile w3) as ([saved Hs] & _).
  rewrite Hs.
  destruct saved as [err|]; cbn [IO.trace IO.value fst snd].
  { rewrite run_fail_trace, run_fail_value. split; [|done].
    by rewrite <- !app_comm_cons, <- !app_assoc. }
  rewrite run_Do. cbn [IO.trace IO.value IO.run fst snd]. rewrite (ev_Print _ (os _ _).1).
  split; [|done]. by rewrite <- !app_comm_cons, <- !app_assoc.
Qed.

Lemma main_usage args w :
  (len args < 2)%Z →
  IO.trace (IO.run os (program args) w) = printed IO.usage ∧
  IO.value (IO.run os (program args) w) = inl 1%Z.
Proof.
  intros Hargs. unfold IO.main. rewrite decide_True by done.
  edestruct (@run_printAll unit) as [w' ->].
  cbn [IO.trace IO.value IO.run fst snd]. by rewrite app_nil_r.
Qed.

Lemma nothingWritten_console c a : console c = true → nothingWritten [ev c a].
Proof.
  intros Hc. apply consoleOnly_nothingWritten.
  apply Forall_cons. split; [exact Hc|constructor].
Qed.

Lemma nothingWritten_nil : nothingWritten [].
Proof. apply Forall_nil_2. Qed.

Lemma nothingWritten_parse name : always os nothingWritten (parseFile name).
Proof. intros w. by destruct (parseFile_facts name w) as (_ & _ & ? & _). Qed.

Lemma nothingWritten_count files :
  always os nothingWritten (IO.countTotalHosts xml_Unmarshal files).
Proof.
  apply always_countFrom;
    [apply nothingWritten_nil|apply nothingWritten_app
    |apply nothingWritten_parse].
Qed.

Lemma nothingWritten_merge files totalHosts :
  always os nothingWritten (mergeAll files totalHosts).
Proof.
  apply always_mergeNessusFiles;
    [apply nothingWritten_nil|apply nothingWritten_app
    |apply nothingWritten_parse|apply nothingWritten_console].
Qed.

Lemma filesClosed_console c a : console c = true → filesClosed [ev c a].
Proof.
  intros Hc. unfold filesClosed. cbn [fileState].
  by rewrite fileStep_console.
Qed.

Lemma filesClosed_parse name : always os filesClosed (parseFile name).
Proof. intros w. by destruct (parseFile_facts name w) as (_ & ? & _). Qed.

(** In every run of the program, whatever the operating system
    answers and however the run ends, at most one file is open at a time,
    a file is read, written or closed only while it is open, and when the
    program returns or calls [os.Exit] every file that it opened or created
    has been closed. *)
Theorem main_files_closed args w :
  filesClosed (IO.trace (IO.run os (program args) w)).
Proof.
  revert w. apply always_main.
  - done.
  - apply filesClosed_app.
  - apply filesClosed_parse.
  - apply filesClosed_console.
  - done.
  - intros data filename w.
    destruct (saveMergedReport_run os filepath_Dir data filename w)
      as (v & _ & Hclosed & _).
    exact Hclosed.
Qed.

(** The program opens no file for reading but those that the walk of
    the input directory reported as reports, in that order: in every run
    the names passed to [os.Open] are a beginning of the list of the files
    found followed by itself, and all of it when the program returns.  Each
    report is thus read at most twice, once to count its hosts and once to
    merge them. *)
Theorem main_opens_found_files args w :
  let inputDir := default EmptyString (args !! 1) in
  let files :=
    (findNessusFiles ToLower (os (IO.walk_Dir inputDir) w).1).1 in
  let r := IO.run os (program args) w in
  opened (IO.trace r) `prefix_of` files ++ files ∧
  (IO.value r = inr () → opened (IO.trace r) = files ++ files).
Proof.
  cbv zeta. destruct (decide (len args < 2)%Z) as [Hargs|Hargs].
  { destruct (main_usage args w Hargs) as [-> ->].
    rewrite (consoleOnly_opened _ (consoleOnly_printed _)).
    split; [apply prefix_nil|done]. }
  pose proof (main_run args w Hargs) as Hrun. cbv zeta in Hrun.
  destruct (findNessusFiles ToLower _) as [files [err|]]; cbn [fst snd] in *.
  { destruct Hrun as [-> ->]. split; [apply prefix_nil|done]. }
  case_decide.
  { destruct Hrun as [-> ->]. split; [apply prefix_nil|done]. }
  destruct Hrun as [w1 Hrun].
  destruct (countFrom_facts files 0 w1) as (_ & Hpc & Hec).
  unfold IO.countTotalHosts in Hrun.
  destruct (IO.value (IO.run os (IO.countFrom xml_Unmarshal 0 files) w1))
    as [code|[err|totalHosts]]; [done|..].
  { destruct Hrun as [-> ->].
    rewrite opened_walk_cons, !opened_app.
    rewrite !(consoleOnly_opened _ (consoleOnly_printed _)).
    cbn [app]. rewrite ?app_nil_r.
    split; [|done]. by apply prefix_app_r. }
  specialize (Hec _ eq_refl).
  destruct Hrun as [w2 Hrun].
  destruct (mergeNessusFiles_facts files totalHosts w2) as (_ & Hpm & Hem).
  destruct (IO.value (IO.run os (mergeAll files totalHosts) w2))
    as [code|[err|mergedData]]; [done|..].
  { destruct Hrun as [-> ->].
    rewrite <- !app_comm_cons, opened_walk_cons, !opened_app.
    rewrite !(consoleOnly_opened _ (consoleOnly_printed _)), Hec.
    cbn [app]. rewrite ?app_nil_r.
    split; [|done]. by apply prefix_app. }
  specialize (Hem _ eq_refl).
  destruct Hrun as [w3 Hrun].
  destruct (save_facts mergedData
              (if decide (len args > 2)%Z
               then default EmptyString (args !! 2)
               else "merged_nessus_report.nessus") w3) as (_ & Hos & _).
  assert (opened (IO.trace (IO.run os (program args) w)) = files ++ files)
    as ->; [|done].
  destruct (IO.value (IO.run os (save _ _) w3)) as [code|[err|]]; [done|..];
    destruct Hrun as [-> _];
    rewrite <- !app_comm_cons, opened_walk_cons, !opened_app;
    rewrite !(consoleOnly_opened _ (consoleOnly_printed _)), Hec, Hem, Hos;
    cbn [app]; by rewrite ?app_nil_r.
Qed.

(** The program leaves through [os.Exit] only with status 1 and only
    right after printing a message; with fewer than two arguments it prints
    the three lines of the usage and does nothing else. *)
Theorem main_exit_status args w :
  let r := IO.run os (program args) w in
  (∀ code, IO.value r = inl code →
           code = 1%Z ∧ ∃ t text, IO.trace r = t ++ printed [text]) ∧
  ((len args < 2)%Z → IO.trace r = printed IO.usage ∧ IO.value r = inl 1%Z).
Proof.
  cbv zeta. split; [|apply main_usage]. intros code.
  destruct (decide (len args < 2)%Z) as [Hargs|Hargs].
  { destruct (main_usage args w Hargs) as [-> ->]. intros [= <-].
    split; [done|]. apply (printed_last_app (printed (take 2 IO.usage))).
    apply printed_last_one. }
  pose proof (main_run args w Hargs) as Hrun. cbv zeta in Hrun.
  destruct (findNessusFiles ToLower _) as [files [err|]]; cbn [fst snd] in *.
  { destruct Hrun as [-> ->]. intros [= <-]. split; [done|]. ends_printed. }
  case_decide.
  { destruct Hrun as [-> ->]. intros [= <-]. split; [done|]. ends_printed. }
  destruct Hrun as [w1 Hrun].
  destruct (IO.value (IO.run os (IO.countTotalHosts xml_Unmarshal files) w1))
    as [?|[err|totalHosts]]; [done|..].
  { destruct Hrun as [-> ->]. intros [= <-]. split; [done|]. ends_printed. }
  destruct Hrun as [w2 Hrun].
  destruct (IO.value (IO.run os (mergeAll files totalHosts) w2))
    as [?|[err|mergedData]]; [done|..].
  { destruct Hrun as [-> ->]. intros [= <-]. split; [done|]. ends_printed. }
  destruct Hrun as [w3 Hrun].
  destruct (IO.value (IO.run os (save _ _) w3)) as [?|[err|]]; [done|..].
  { destruct Hrun as [-> ->]. intros [= <-]. split; [done|]. ends_printed. }
  by destruct Hrun as [_ ->].
Qed.

(** *** The program when the files do not change *)

Lemma regroup {A : Type} (e : A) l1 l2 l3 :
  e :: l1 ++ l2 ++ l3 = (e :: l1 ++ l2) ++ l3.
Proof. cbn. by rewrite !app_assoc. Qed.

Lemma barUses_cons e t : barUses (e :: t) = barUses [e] ++ barUses t.
Proof. apply (barUses_app [e]). Qed.

Lemma barUses_parse name w :
  barUses (IO.trace (IO.run os (parseFile name) w)) = [].
Proof. by destruct (parseFile_facts name w) as (_ & _ & _ & _ & ?). Qed.

Lemma barUses_count files :
  always os (λ t, barUses t = []) (IO.countTotalHosts xml_Unmarshal files).
Proof.
  apply always_countFrom; [done| |intros name w; apply barUses_parse].
  intros t1 t2 H1 H2. by rewrite barUses_app, H1, H2.
Qed.

Lemma filesClosed_merge files totalHosts :
  always os filesClosed (mergeAll files totalHosts).
Proof.
  apply always_mergeNessusFiles;
    [done|apply filesClosed_app|apply filesClosed_parse
    |apply filesClosed_console].
Qed.

Section StaticRuns.

Variable parse : string → error + NessusClientData.
Hypothesis files_static : static os xml_Unmarshal parse.

Lemma mergeAll_barUses files docs totalHosts w :
  parsed parse files docs →
  barUses (IO.trace (IO.run os (mergeAll files totalHosts) w))
  = Created totalHosts :: replicate (length (hostsOf docs)) (Advanced 1).
Proof.
  intros Hp. unfold IO.mergeNessusFiles. rewrite run_Do, run_bind.
  rewrite (mergeFrom_static parse files_static).
  change (mergeFrom parse 0 files initState) with (mergeLoop parse files).
  rewrite (mergeLoop_parsed _ _ _ Hp). cbn [IO.trace fst snd].
  rewrite run_Do. cbn [IO.trace fst snd].
  rewrite barUses_cons, (barUses_app (IO.trace _)).
  rewrite (mergeFrom_barUses parse files_static _ _ _ _ _ Hp).
  rewrite (barUses_cons (ev IO.bar_Finish _)).
  change (barUses [ev (IO.bar_NewOptions totalHosts) ?a])
    with [Created totalHosts].
  change (barUses [ev IO.bar_Finish ?a]) with (@nil barUse).
  cbn [app]. f_equal.
  destruct (xml_MarshalIndent _ _) as [err|output].
  - cbn. by rewrite app_nil_r.
  - edestruct (@run_printAll (error + string)) as [w' ->].
    cbn [IO.trace IO.run fst snd].
    by rewrite (barUses_app (printed _)), barUses_printed, !app_nil_r.
Qed.

(** The run of [main] when the walk found reports, part by part. *)
Lemma main_run_static args w :
  ¬ (len args < 2)%Z →
  let inputDir := default EmptyString (args !! 1) in
  let outputFile :=
    if decide (len args > 2)%Z then default EmptyString (args !! 2)
    else "merged_nessus_report.nessus" in
  let found := findNessusFiles ToLower (os (IO.walk_Dir inputDir) w).1 in
  let files := found.1 in
  let r := IO.run os (program args) w in
  found.2 = None → len files ≠ 0%Z →
  ∃ t1,
    nothingWritten t1 ∧ barUses t1 = [] ∧
    match countTotalHosts parse files with
    | inl err =>
        IO.trace r = t1 ++ printed ["Error counting hosts: " +:+ err +:+ nl]
        ∧ IO.value r = inl 1%Z
    | inr totalHosts =>
        ∃ t2,
          nothingWritten t2 ∧
          (∀ docs, parsed parse files docs →
                   barUses t2
                   = Created totalHosts
                     :: replicate (length (hostsOf docs)) (Advanced 1)) ∧
          match mergeNessusFiles EscapeString parse rangeMap files
                  totalHosts with
          | inl err =>
              IO.trace r
              = t1 ++ t2 ++
                printed ["Error merging Nessus files: " +:+ err +:+ nl]
              ∧ IO.value r = inl 1%Z
          | inr mergedData =>
              ∃ w3,
                let rs := IO.run os (save mergedData outputFile) w3 in
                match IO.value rs with
                | inl _ => False
                | inr (Some err) =>
                    IO.trace r
                    = t1 ++ t2 ++ IO.trace rs ++
                      printed ["Error saving merged report: " +:+ err +:+ nl]
                    ∧ IO.value r = inl 1%Z
                | inr None =>
                    IO.trace r
                    = t1 ++ t2 ++ IO.trace rs ++
                      printed
                        [nl +:+ IO.checkMark +:+ " Successfully merged " +:+
                         IO.fmt_d (len files) +:+ " files into " +:+
                         outputFile +:+ nl]
                    ∧ IO.value r = inr ()
                end
          end
    end.
Proof.
  intros Hargs. cbv zeta. intros Hfound Hfiles.
  pose proof (main_run args w Hargs) as Hrun. cbv zeta in Hrun.
  rewrite Hfound in Hrun. rewrite decide_False in Hrun by done.
  destruct Hrun as [w1 Hrun].
  set (files := (findNessusFiles ToLower _).1) in *.
  pose proof (nothingWritten_count files w1) as Hwc.
  pose proof (barUses_count files w1 : barUses _ = []) as Hbc.
  unfold IO.countTotalHosts in Hrun, Hwc, Hbc.
  rewrite (countFrom_static parse files_static) in Hrun.
  fold (countTotalHosts parse files) in Hrun.
  destruct (countTotalHosts parse files) as [err|totalHosts].
  { destruct Hrun as [Ht Hv]. eexists. split; [|split].
    3: { split; [|exact Hv]. rewrite Ht. apply regroup. }
    - apply (nothingWritten_app [_]); [by repeat constructor|].
      apply nothingWritten_app; [|exact Hwc].
      apply consoleOnly_nothingWritten, consoleOnly_printed.
    - rewrite barUses_cons, (barUses_app (printed _)), barUses_printed.
      exact Hbc. }
  destruct Hrun as [w2 Hrun].
  rewrite (mergeNessusFiles_static parse files_static) in Hrun.
  eexists. split; [|split].
  3: { exists (IO.trace (IO.run os (mergeAll files totalHosts) w2)).
       split; [apply nothingWritten_merge|].
       split; [intros docs Hp; by apply mergeAll_barUses|].
       destruct (mergeNessusFiles _ _ _ _ _) as [err|mergedData].
       { exact Hrun. }
       destruct Hrun as [w3 Hrun]. exists w3.
       destruct (IO.value (IO.run os (save _ _) w3)) as [?|[err|]];
         [done|exact Hrun..]. }
  - apply (nothingWritten_app [_]); [by repeat constructor|].
    apply nothingWritten_app;
      [apply consoleOnly_nothingWritten, consoleOnly_printed|].
    apply nothingWritten_app; [exact Hwc|].
    apply consoleOnly_nothingWritten, consoleOnly_printed.
  - rewrite barUses_cons, (barUses_app (printed _)), barUses_printed.
    rewrite (barUses_app (IO.trace _)), barUses_printed, app_nil_r.
    exact Hbc.
Qed.

(** When the files do not change while the program runs, the two
    functions that read them give what the model by results gives:
    [mergeNessusFiles] returns the bytes, or the error, of the function of
    the parsed documents, and [countTotalHosts] its count.  Neither creates
    or changes anything in the file system, and [mergeNessusFiles] leaves no
    file open. *)
Theorem mergeNessusFiles_refines files totalHosts w :
  let r := IO.run os (mergeAll files totalHosts) w in
  IO.value r
  = inr (mergeNessusFiles EscapeString parse rangeMap files totalHosts) ∧
  IO.value (IO.run os (IO.countTotalHosts xml_Unmarshal files) w)
  = inr (countTotalHosts parse files) ∧
  nothingWritten (IO.trace r) ∧
  nothingWritten
    (IO.trace (IO.run os (IO.countTotalHosts xml_Unmarshal files) w)) ∧
  filesClosed (IO.trace r).
Proof.
  cbv zeta. split; [by apply mergeNessusFiles_static|].
  split; [by apply countFrom_static|].
  split; [apply nothingWritten_merge|].
  split; [apply nothingWritten_count|apply filesClosed_merge].
Qed.

(** When the files do not change while the program runs, a run that
    fails before the report is saved (the walk of the input directory
    fails, no report is found, a report does not parse, or the merged
    document cannot be encoded) ends with status 1, with the message of the
    failure as the last thing printed, and without any call that creates or
    changes something in the file system: no directory is made and no
    output file is created. *)
Theorem main_failure_writes_nothing args w :
  ¬ (len args < 2)%Z →
  let inputDir := default EmptyString (args !! 1) in
  let found := findNessusFiles ToLower (os (IO.walk_Dir inputDir) w).1 in
  let r := IO.run os (program args) w in
  ∀ message,
    match found.2 with
    | Some err => message = "Error finding Nessus files: " +:+ err +:+ nl
    | None =>
        mergePipeline EscapeString parse rangeMap inputDir found.1
        = inl message
    end →
    IO.value r = inl 1%Z ∧ nothingWritten (IO.trace r) ∧
    ∃ t, IO.trace r = t ++ printed [message].
Proof.
  intros Hargs. cbv zeta. intros message Hfail.
  destruct (findNessusFiles ToLower _).2 as [err|] eqn:Hfound.
  { pose proof (main_run args w Hargs) as Hrun. cbv zeta in Hrun.
    rewrite Hfound in Hrun. destruct Hrun as [Ht Hv]. subst message.
    rewrite Ht. split; [exact Hv|]. split; [by repeat constructor|].
    by eexists [_]. }
  unfold mergePipeline in Hfail.
  destruct (decide (len (findNessusFiles ToLower _).1 = 0%Z))
    as [Hfiles|Hfiles].
  { pose proof (main_run args w Hargs) as Hrun. cbv zeta in Hrun.
    rewrite Hfound in Hrun. rewrite decide_True in Hrun by done.
    destruct Hrun as [Ht Hv]. injection Hfail as <-.
    rewrite Ht. split; [exact Hv|]. split; [by repeat constructor|].
    by eexists [_]. }
  destruct (main_run_static args w Hargs Hfound Hfiles)
    as (t1 & Hw1 & _ & Hrun).
  destruct (countTotalHosts parse _) as [err|totalHosts].
  { destruct Hrun as [Ht Hv]. injection Hfail as <-.
    rewrite Ht. split; [exact Hv|]. split; [|by exists t1].
    apply nothingWritten_app; [exact Hw1|].
    apply consoleOnly_nothingWritten, consoleOnly_printed. }
  destruct Hrun as (t2 & Hw2 & _ & Hrun).
  destruct (mergeNessusFiles _ _ _ _ _) as [err|mergedData]; [|done].
  destruct Hrun as [Ht Hv]. injection Hfail as <-.
  rewrite Ht. split; [exact Hv|]. split.
  - apply nothingWritten_app; [exact Hw1|].
    apply nothingWritten_app; [exact Hw2|].
    apply consoleOnly_nothingWritten, consoleOnly_printed.
  - exists (t1 ++ t2). apply app_assoc.
Qed.

(** When the files do not change while the program runs and the
    reports found merge into [output], the run is: a part that creates or
    changes nothing in the file system, then one run of [saveMergedReport]
    on exactly [output] and the output file named on the command line (or
    the default name), then one message.  The program returns when the save
    returned no error, and exits with status 1 after the message of the
    error otherwise. *)
Theorem main_writes_merged_report args w :
  ¬ (len args < 2)%Z →
  let inputDir := default EmptyString (args !! 1) in
  let outputFile :=
    if decide (len args > 2)%Z then default EmptyString (args !! 2)
    else "merged_nessus_report.nessus" in
  let found := findNessusFiles ToLower (os (IO.walk_Dir inputDir) w).1 in
  let r := IO.run os (program args) w in
  found.2 = None →
  ∀ output,
    mergePipeline EscapeString parse rangeMap inputDir found.1 = inr output →
    ∃ t w',
      let rs := IO.run os (save output outputFile) w' in
      nothingWritten t ∧
      match IO.value rs with
      | inl _ => False
      | inr (Some err) =>
          IO.trace r
          = t ++ IO.trace rs ++
            printed ["Error saving merged report: " +:+ err +:+ nl]
          ∧ IO.value r = inl 1%Z
      | inr None =>
          IO.trace r
          = t ++ IO.trace rs ++
            printed
              [nl +:+ IO.checkMark +:+ " Successfully merged " +:+
               IO.fmt_d (len found.1) +:+ " files into " +:+
               outputFile +:+ nl]
          ∧ IO.value r = inr ()
      end.
Proof.
  intros Hargs. cbv zeta. intros Hfound output Hout.
  unfold mergePipeline in Hout.
  destruct (decide (len (findNessusFiles ToLower _).1 = 0%Z))
    as [Hfiles|Hfiles]; [done|].
  destruct (main_run_static args w Hargs Hfound Hfiles)
    as (t1 & Hw1 & _ & Hrun).
  destruct (countTotalHosts parse _) as [err|totalHosts]; [done|].
  destruct Hrun as (t2 & Hw2 & _ & Hrun).
  destruct (mergeNessusFiles _ _ _ _ _) as [err|mergedData]; [done|].
  injection Hout as <-. destruct Hrun as [w3 Hrun].
  exists (t1 ++ t2), w3. cbv zeta in *.
  split; [by apply nothingWritten_app|].
  destruct (IO.value (IO.run os (save _ _) w3)) as [?|[err|]]; [done|..];
    destruct Hrun as [-> ->]; by rewrite <- app_assoc.
Qed.

(** When the files do not change while the program runs and all the
    reports found parse, the progress bar is created once, before it is
    advanced, with the number of host occurrences of all the reports (as a
    Go [int]) as its maximum, and it is advanced by one once for every host
    occurrence, and no more: the bar is full when the last host has been
    processed, whatever happens afterwards. *)
Theorem progress_bar_complete args w docs :
  ¬ (len args < 2)%Z →
  let inputDir := default EmptyString (args !! 1) in
  let found := findNessusFiles ToLower (os (IO.walk_Dir inputDir) w).1 in
  let r := IO.run os (program args) w in
  found.2 = None → found.1 ≠ [] → parsed parse found.1 docs →
  barUses (IO.trace r)
  = Created (int_wrap (Z.of_nat (length (hostsOf docs))))
    :: replicate (length (hostsOf docs)) (Advanced 1).
Proof.
  intros Hargs. cbv zeta. intros Hfound Hne Hp.
  assert (len (findNessusFiles ToLower
                 (os (IO.walk_Dir (default EmptyString (args !! 1))) w).1).1
          ≠ 0%Z) as Hfiles.
  { destruct (findNessusFiles ToLower _).1; [done|].
    unfold len. cbn [length]. lia. }
  destruct (main_run_static args w Hargs Hfound Hfiles)
    as (t1 & _ & Hb1 & Hrun).
  unfold countTotalHosts in Hrun. change 0%Z with (int_wrap 0) in Hrun at 1.
  rewrite (countFrom_parsed _ _ _ _ Hp) in Hrun.
  replace (0 + Z.of_nat (length (hostsOf docs)))%Z
    with (Z.of_nat (length (hostsOf docs))) in Hrun by lia.
  destruct Hrun as (t2 & _ & Hb2 & Hrun). specialize (Hb2 docs Hp).
  destruct (mergeNessusFiles _ _ _ _ _) as [err|mergedData].
  { destruct Hrun as [-> _].
    rewrite !barUses_app, Hb1, Hb2, barUses_printed. cbn [app].
    by rewrite app_nil_r. }
  destruct Hrun as [w3 Hrun].
  destruct (save_facts mergedData
              (if decide (len args > 2)%Z
               then default EmptyString (args !! 2)
               else "merged_nessus_report.nessus") w3) as (_ & _ & Hb3).
  destruct (IO.value (IO.run os (save _ _) w3)) as [?|[err|]]; [done|..];
    destruct Hrun as [-> _];
    rewrite !barUses_app, Hb1, Hb2, Hb3, barUses_printed; cbn [app];
    by rewrite app_nil_r.
Qed.

End StaticRuns.

End ProgramFacts.

(** ** Runs on a machine *)

Lemma Machine_static : static Machine.os Machine.xml_Unmarshal Machine.parse.
Proof.
  intros w name. unfold Machine.parse, IO.parseNessusFile. cbn.
  destruct (Machine.contents name) as [content|] eqn:Hname; [|done].
  cbn. rewrite Hname. by destruct (Machine.xml_Unmarshal content).
Qed.

Lemma mergeNessusFiles_refines_example :
  let files := ["scans/B.NESSUS"; "scans/a.nessus"] in
  let r := IO.run Machine.os (Machine.mergeNessusFiles files 3) None in
  IO.value r
  = inr (mergeNessusFiles Examples.plainEscape Machine.parse
           Examples.keyOrder files 3) ∧
  IO.value (IO.run Machine.os
              (IO.countTotalHosts Machine.xml_Unmarshal files) None)
  = inr (countTotalHosts Machine.parse files) ∧
  nothingWritten (IO.trace r) ∧
  nothingWritten
    (IO.trace (IO.run Machine.os
                 (IO.countTotalHosts Machine.xml_Unmarshal files) None)) ∧
  filesClosed (IO.trace r).
Proof.
  exact (mergeNessusFiles_refines Machine.os Machine.filepath_Base
           Machine.xml_Unmarshal Examples.plainEscape Examples.keyOrder
           Machine.parse Machine_static
           ["scans/B.NESSUS"; "scans/a.nessus"] 3 None).
Defined.

Lemma main_failure_writes_nothing_example :
  let r := IO.run Machine.os (Machine.main ["nessusmerger"; "bad"]) None in
  IO.value r = inl 1%Z ∧ nothingWritten (IO.trace r) ∧
  ∃ t,
    IO.trace r
    = t ++ printed
             ["Error counting hosts: error parsing bad/broken.nessus: " +:+
              "XML syntax error on line 1: unexpected EOF" +:+ nl].
Proof.
  apply (main_failure_writes_nothing Machine.os Machine.ToLower
           Machine.filepath_Dir Machine.filepath_Base Machine.xml_Unmarshal
           Examples.plainEscape Examples.keyOrder Machine.parse
           Machine_static ["nessusmerger"; "bad"] None).
  - vm_compute. discriminate.
  - vm_compute. reflexivity.
Defined.

Lemma main_writes_merged_report_example :
  let r :=
    IO.run Machine.os (Machine.main ["nessusmerger"; "scans"; "out/all.nessus"])
      None in
  ∃ output t w',
    mergeNessusFiles Examples.plainEscape Machine.parse Examples.keyOrder
      ["scans/B.NESSUS"; "scans/a.nessus"] 3 = inr output ∧
    let rs :=
      IO.run Machine.os
        (IO.saveMergedReport Machine.filepath_Dir output "out/all.nessus")
        w' in
    nothingWritten t ∧
    match IO.value rs with
    | inl _ => False
    | inr (Some err) =>
        IO.trace r
        = t ++ IO.trace rs ++
          printed ["Error saving merged report: " +:+ err +:+ nl]
        ∧ IO.value r = inl 1%Z
    | inr None =>
        IO.trace r
        = t ++ IO.trace rs ++
          printed
            [nl +:+ IO.checkMark +:+ " Successfully merged " +:+
             IO.fmt_d 2 +:+ " files into " +:+ "out/all.nessus" +:+ nl]
        ∧ IO.value r = inr ()
    end.
Proof.
  destruct (mergeNessusFiles Examples.plainEscape Machine.parse
              Examples.keyOrder ["scans/B.NESSUS"; "scans/a.nessus"] 3)
    as [err|output] eqn:Hout; [vm_compute in Hout; discriminate|].
  exists output.
  assert (mergePipeline Examples.plainEscape Machine.parse Examples.keyOrder
            "scans" ["scans/B.NESSUS"; "scans/a.nessus"] = inr output)
    as Hpipe by (etrans; [|exact Hout]; vm_compute; reflexivity).
  destruct (main_writes_merged_report Machine.os Machine.ToLower
              Machine.filepath_Dir Machine.filepath_Base
              Machine.xml_Unmarshal Examples.plainEscape Examples.keyOrder
              Machine.parse Machine_static
              ["nessusmerger"; "scans"; "out/all.nessus"] None
              ltac:(vm_compute; discriminate) eq_refl output Hpipe)
    as (t & w' & Hrun).
  exists t, w'. split; [reflexivity|exact Hrun].
Defined.

Lemma progress_bar_complete_example :
  barUses
    (IO.trace (IO.run Machine.os (Machine.main ["nessusmerger"; "scans"])
                 None))
  = [Created 3; Advanced 1; Advanced 1; Advanced 1].
Proof.
  apply (progress_bar_complete Machine.os Machine.ToLower
           Machine.filepath_Dir Machine.filepath_Base Machine.xml_Unmarshal
           Examples.plainEscape Examples.keyOrder Machine.parse
           Machine_static ["nessusmerger"; "scans"] None
           [Examples.docB; Examples.docA]).
  - vm_compute. discriminate.
  - reflexivity.
  - discriminate.
  - repeat constructor.
Defined.

Lemma main_opens_found_files_example :
  opened
    (IO.trace (IO.run Machine.os (Machine.main ["nessusmerger"; "scans"])
                 None))
  = ["scans/B.NESSUS"; "scans/a.nessus"]
    ++ ["scans/B.NESSUS"; "scans/a.nessus"].
Proof.
  apply (main_opens_found_files Machine.os Machine.ToLower
           Machine.filepath_Dir Machine.filepath_Base Machine.xml_Unmarshal
           Examples.plainEscape Examples.keyOrder
           ["nessusmerger"; "scans"] None).
  vm_compute. reflexivity.
Defined.
